(** * An order book matched over TCP: the Go package [models], embedded in Rocq

    Source: [models/order.go], [models/orderBook.go] and, for the last
    part, [models/server.go].

    The embedding follows the Go code statement by statement.

    - A Go [int] is a [Z]; the two places where the code does arithmetic
      that could leave the 64-bit range ([nextOrderID++], [Size -= vol])
      are wrapped with [wrap64].
    - A price is a [float64] that the code only compares ([>=]) and uses
      as a map key.  It is represented by a [Z] (a number of ticks): any
      finite set of non-NaN prices embeds in [Z] with the same order and
      the same equality.  A NaN price is not a number: as a map key it
      can neither be found nor deleted.  The entries that a map holds
      under NaN are added to the book in [FloatBook], with [AddOrder_float]
      and [StopMatching_float].
    - [time.Time] is a [Z] (a clock reading); [AddOrder] takes the value
      returned by [time.Now()] as an argument.
    - [map[float64][]Order] is a [gmap Z (list Order)].  The order in which
      [range] visits the keys of a map is not specified by Go, so
      [MatchOrders] takes the visiting order as an argument (a schedule);
      an entry that was deleted before it is reached is skipped, as the
      Go specification says.
    - A run-time panic (index or slice bounds out of range, close of a
      closed channel) is the result [Panic].
    - The two [for] loops with a counter that the body also decrements
      are functions with fuel; [MatchOrders_fuel] shows that the fuel they
      get is never used up, so that a pass either completes or panics.
    - The mutex is not modelled: each exported method is one atomic
      transition of the book. *)

From stdpp Require Import gmap strings list fin_maps sorting.
From Stdlib Require Import ZArith Lia.

Open Scope Z_scope.

(** ** Machine integers *)

Definition wrap64 (z : Z) : Z := (z + 2 ^ 63) mod 2 ^ 64 - 2 ^ 63.

Definition int64 (z : Z) : Prop := - 2 ^ 63 <= z < 2 ^ 63.

(** ** order.go *)

Record Order := mkOrder {
  Price : Z;
  Id : Z;
  Ticker : string;
  Size : Z;
  OrderType : Z;
  Side : string;
  Timestamp : Z;
  GTC : bool;
  FOK : bool
}.

Definition GetType (orderType : string) : Z :=
  if String.eqb orderType "market" then 1
  else if String.eqb orderType "limit" then 2
  else if String.eqb orderType "gtc" then 3
  else if String.eqb orderType "fok" then 4
  else 0.

Definition set_Size (o : Order) (s : Z) : Order :=
  mkOrder (Price o) (Id o) (Ticker o) s (OrderType o) (Side o)
          (Timestamp o) (GTC o) (FOK o).

Definition set_Id_Timestamp (o : Order) (id ts : Z) : Order :=
  mkOrder (Price o) id (Ticker o) (Size o) (OrderType o) (Side o)
          ts (GTC o) (FOK o).

Definition set_GTC (o : Order) (b : bool) : Order :=
  mkOrder (Price o) (Id o) (Ticker o) (Size o) (OrderType o) (Side o)
          (Timestamp o) b (FOK o).

Definition set_FOK (o : Order) (b : bool) : Order :=
  mkOrder (Price o) (Id o) (Ticker o) (Size o) (OrderType o) (Side o)
          (Timestamp o) (GTC o) b.

(** ** orderBook.go: the book *)

(** [stopClosed] is the state of the channel [stopChan]: [false] while it
    is open, [true] once [close] has been called on it. *)
Record OrderBook := mkBook {
  Bids : gmap Z (list Order);
  Asks : gmap Z (list Order);
  nextOrderID : Z;
  stopClosed : bool
}.

Definition NewOrderBook : OrderBook := mkBook ∅ ∅ 0 false.

(** What a method call can end in. *)
Inductive result (A : Type) : Type :=
| Ok (a : A)
| Panic
| OutOfFuel.
Arguments Ok {A} a.
Arguments Panic {A}.
Arguments OutOfFuel {A}.

Definition bind {A B : Type} (r : result A) (k : A → result B) : result B :=
  match r with
  | Ok a => k a
  | Panic => Panic
  | OutOfFuel => OutOfFuel
  end.

(** ** AddOrder *)

(** [sort.Slice] with [less(i, j) = data[i].Timestamp.Before(data[j].Timestamp)].
    For a slice of at most 12 elements Go runs the insertion sort below:
    element [x] moves left while it is before its left neighbour.  ([rpre]
    is the part already sorted, nearest neighbour first.)  On longer slices
    Go's pattern-defeating quicksort can only differ in the relative order
    of orders with equal timestamps. *)
Fixpoint sink (x : Order) (rpre : list Order) : list Order :=
  match rpre with
  | [] => [x]
  | y :: r =>
      if Timestamp x <? Timestamp y then y :: sink x r else x :: y :: r
  end.

Definition sort_by_timestamp (l : list Order) : list Order :=
  rev (fold_left (λ racc x, sink x racc) l []).

Definition level (m : gmap Z (list Order)) (p : Z) : list Order :=
  default [] (m !! p).

(** Lines 177-186: the local [order] once its id, timestamp and flags are
    set.  (The counter is incremented in between; see [AddOrder].) *)
Definition stamp (order : Order) (now : Z) (ob : OrderBook) : Order :=
  let order := set_Id_Timestamp order (nextOrderID ob) now in
  if OrderType order =? 3 then set_GTC order true
  else if OrderType order =? 4 then set_FOK order true
  else order.

Definition AddOrder (order : Order) (now : Z) (ob : OrderBook) : OrderBook :=
  let order := stamp order now ob in
  let next := wrap64 (nextOrderID ob + 1) in
  if String.eqb (Side order) "buy" then
    mkBook (<[Price order :=
                sort_by_timestamp (level (Bids ob) (Price order) ++ [order])]>
              (Bids ob))
           (Asks ob) next (stopClosed ob)
  else if String.eqb (Side order) "sell" then
    mkBook (Bids ob)
           (<[Price order :=
                sort_by_timestamp (level (Asks ob) (Price order) ++ [order])]>
              (Asks ob))
           next (stopClosed ob)
  else mkBook (Bids ob) (Asks ob) next (stopClosed ob).

(** ** StopMatching *)

(** One of the two [for price, orders := range ...] loops of [StopMatching]:
    every entry is read once and only its own key is written or deleted. *)
Definition keep_GTC (m : gmap Z (list Order)) : gmap Z (list Order) :=
  map_fold (λ price orders acc,
              let newOrders := filter (λ o, GTC o = true) orders in
              if (length newOrders =? 0)%nat then delete price acc
              else <[price := newOrders]> acc)
           m m.

(** [close(ob.stopChan)] panics when the channel is already closed. *)
Definition StopMatching (ob : OrderBook) : result OrderBook :=
  if stopClosed ob then Panic
  else Ok (mkBook (keep_GTC (Bids ob)) (keep_GTC (Asks ob))
                  (nextOrderID ob) true).

(** ** MatchOrders *)

(** What the pass prints.  [Fill] is the line
    ["Fill at price: %.2f, size %d, with order id %d and %d"]; its first
    field is not printed: it records the bid level the pass was visiting,
    so that theorems can speak about the pair of levels of a fill.
    [NoMatch] is the line ["No matches found this iteration"]. *)
Inductive Event : Type :=
| Fill (bidLevel price size bidId askId : Z)
| NoMatch.

(** *** Slices

    A Go slice is a view [(array, len)] of a backing array.  The local
    variables [bids] and [asks] of [MatchOrders] are copies of the slice
    headers stored in the maps: they share the backing arrays with
    [ob.Bids[bidPrice]] and [ob.Asks[askPrice]].  The model keeps, for each
    of the two local slices, the backing array (as far as the slice read
    from the map reached) and the local length; a map entry is a prefix of
    the same array. *)

(** [s[i]] for [s = (arr, n)]: [None] is the index-out-of-range panic. *)
Definition index (arr : list Order) (n : nat) (i : Z) : option Order :=
  if (0 <=? i) && (i <? Z.of_nat n) then arr !! Z.to_nat i else None.

(** The bounds checks of [s[:k]] and [s[k+1:]] for a slice of length [n]. *)
Definition slice_del_ok (k : Z) (n : nat) : bool :=
  (0 <=? k) && (k + 1 <=? Z.of_nat n).

(** [append(s[:k], s[k+1:]...)] for [s = (arr, n)]: there is room, so the
    elements [k+1 .. n-1] move one slot down inside [arr]; slot [n-1] and
    what lies behind it keep their content.  The resulting slice is
    [(shift_del arr k n, n-1)]. *)
Definition shift_del (arr : list Order) (k n : nat) : list Order :=
  take k arr ++ drop (S k) (take n arr) ++ drop (n - 1)%nat arr.

(** A map entry that views the array [arr] sees what was written to it. *)
Definition resync (m : gmap Z (list Order)) (p : Z) (arr : list Order)
  : gmap Z (list Order) :=
  match m !! p with
  | Some l => <[p := take (length l) arr]> m
  | None => m
  end.

(** [m[p] = s; if len(m[p]) == 0 { delete(m, p) }] *)
Definition store_level (m : gmap Z (list Order)) (p : Z) (s : list Order)
  : gmap Z (list Order) :=
  if (length s =? 0)%nat then delete p (<[p := s]> m) else <[p := s]> m.

(** *** The state of a pass: the two maps, [matches], the output, and the
    local variables [bids], [asks], [i], [j], [bid]. *)
Record Frame := mkFrame {
  fBids : gmap Z (list Order);
  fAsks : gmap Z (list Order);
  matches : bool;
  out : list Event;
  bidsArr : list Order;
  bidsLen : nat;
  asksArr : list Order;
  asksLen : nat;
  vi : Z;
  vj : Z;
  vbid : Order
}.

Definition set_i (F : Frame) (i : Z) : Frame :=
  mkFrame (fBids F) (fAsks F) (matches F) (out F) (bidsArr F) (bidsLen F)
          (asksArr F) (asksLen F) i (vj F) (vbid F).

Definition set_j (F : Frame) (j : Z) : Frame :=
  mkFrame (fBids F) (fAsks F) (matches F) (out F) (bidsArr F) (bidsLen F)
          (asksArr F) (asksLen F) (vi F) j (vbid F).

Definition set_bid (F : Frame) (b : Order) : Frame :=
  mkFrame (fBids F) (fAsks F) (matches F) (out F) (bidsArr F) (bidsLen F)
          (asksArr F) (asksLen F) (vi F) (vj F) b.

Definition set_bids (F : Frame) (m : gmap Z (list Order))
  (arr : list Order) (n : nat) : Frame :=
  mkFrame m (fAsks F) (matches F) (out F) arr n
          (asksArr F) (asksLen F) (vi F) (vj F) (vbid F).

Definition set_asks (F : Frame) (m : gmap Z (list Order))
  (arr : list Order) (n : nat) : Frame :=
  mkFrame (fBids F) m (matches F) (out F) (bidsArr F) (bidsLen F)
          arr n (vi F) (vj F) (vbid F).

Definition record_fill (F : Frame) (e : Event) : Frame :=
  mkFrame (fBids F) (fAsks F) true (out F ++ [e]) (bidsArr F) (bidsLen F)
          (asksArr F) (asksLen F) (vi F) (vj F) (vbid F).

Definition print (F : Frame) (e : Event) : Frame :=
  mkFrame (fBids F) (fAsks F) (matches F) (out F ++ [e]) (bidsArr F)
          (bidsLen F) (asksArr F) (asksLen F) (vi F) (vj F) (vbid F).

(** How an iteration of the [j] loop ends: at its closing brace or at a
    [continue] (both go on with [j++]), or at [break]. *)
Inductive ctl : Type := Next | Break.

(** [bids = append(bids[:i], bids[i+1:]...)] on the local slice. *)
Definition del_local_bid (bidPrice : Z) (F : Frame) : result Frame :=
  if slice_del_ok (vi F) (bidsLen F) then
    let arr := shift_del (bidsArr F) (Z.to_nat (vi F)) (bidsLen F) in
    Ok (set_bids F (resync (fBids F) bidPrice arr) arr (bidsLen F - 1)%nat)
  else Panic.

(** [asks = append(asks[:j], asks[j+1:]...)] on the local slice. *)
Definition del_local_ask (askPrice : Z) (F : Frame) : result Frame :=
  if slice_del_ok (vj F) (asksLen F) then
    let arr := shift_del (asksArr F) (Z.to_nat (vj F)) (asksLen F) in
    Ok (set_asks F (resync (fAsks F) askPrice arr) arr (asksLen F - 1)%nat)
  else Panic.

(** Lines 103-109: [ob.Asks[askPrice] = append(ob.Asks[askPrice][:j],
    ob.Asks[askPrice][j+1:]...); j--; if len(...) == 0 { delete }].
    A missing entry reads as the nil slice, whose length is 0. *)
Definition cleanup_ask (askPrice : Z) (F : Frame) : result Frame :=
  let s := level (fAsks F) askPrice in
  if slice_del_ok (vj F) (length s) then
    let arr := shift_del (asksArr F) (Z.to_nat (vj F)) (length s) in
    let s' := take (length s - 1)%nat arr in
    Ok (set_j (set_asks F (store_level (fAsks F) askPrice s') arr (asksLen F))
              (vj F - 1))
  else Panic.

(** Lines 112-119, up to the [break]. *)
Definition cleanup_bid (bidPrice : Z) (F : Frame) : result Frame :=
  if slice_del_ok (vi F) (bidsLen F) then
    let arr := shift_del (bidsArr F) (Z.to_nat (vi F)) (bidsLen F) in
    let n := (bidsLen F - 1)%nat in
    Ok (set_i (set_bids F (store_level (fBids F) bidPrice (take n arr)) arr n)
              (vi F - 1))
  else Panic.

(** The test of line 73. *)
Definition eligible (bid ask : Order) : bool :=
  (OrderType bid =? 1) || (OrderType ask =? 1).

(** The test of lines 77 and 79. *)
Definition fok_cancel (bid ask : Order) (vol : Z) : bool :=
  (FOK bid || FOK ask) && (negb (vol =? Size bid) && negb (vol =? Size ask)).

(** The body of [for j := 0; j < len(asks); j++] (lines 70-122). *)
Definition jbody (bidPrice askPrice : Z) (F : Frame) : result (ctl * Frame) :=
  match index (asksArr F) (asksLen F) (vi F) with
  | None => Panic
  | Some ask =>
      let bid := vbid F in
      if eligible bid ask then
        let vol := Z.min (Size bid) (Size ask) in
        if fok_cancel bid ask vol then
          if FOK bid then
            bind (del_local_bid bidPrice F)
                 (λ F1, Ok (Next, set_i F1 (vi F1 - 1)))
          else
            bind (del_local_ask askPrice F)
                 (λ F1, Ok (Next, set_j F1 (vj F1 - 1)))
        else if 0 <? vol then
          let bid := set_Size bid (wrap64 (Size bid - vol)) in
          let ask := set_Size ask (wrap64 (Size ask - vol)) in
          let F1 := record_fill (set_bid F bid)
                      (Fill bidPrice askPrice vol (Id bid) (Id ask)) in
          bind (if Size ask =? 0 then cleanup_ask askPrice F1 else Ok F1)
               (λ F2,
                  if Size bid =? 0 then
                    bind (cleanup_bid bidPrice F2) (λ F3, Ok (Break, F3))
                  else Ok (Next, F2))
        else Ok (Next, F)
      else Ok (Next, F)
  end.

Fixpoint jloop (fuel : nat) (bidPrice askPrice : Z) (F : Frame)
  : result Frame :=
  match fuel with
  | O => OutOfFuel
  | S fuel =>
      if vj F <? Z.of_nat (asksLen F) then
        bind (jbody bidPrice askPrice F)
             (λ r, match r with
                   | (Break, F1) => Ok F1
                   | (Next, F1) =>
                       jloop fuel bidPrice askPrice (set_j F1 (vj F1 + 1))
                   end)
      else Ok F
  end.

(** Enough fuel for the [j] loop that starts in [F]: every iteration either
    advances [j], or shortens the local slice [asks], or shortens the map
    entry. *)
Definition jfuel (askPrice : Z) (F : Frame) : nat :=
  S (asksLen F + length (level (fAsks F) askPrice)).

(** [for i := 0; i < len(bids); i++] (lines 66-124). *)
Fixpoint iloop (fuel : nat) (bidPrice askPrice : Z) (F : Frame)
  : result Frame :=
  match fuel with
  | O => OutOfFuel
  | S fuel =>
      if vi F <? Z.of_nat (bidsLen F) then
        match index (bidsArr F) (bidsLen F) (vi F) with
        | None => Panic
        | Some bid =>
            let F0 := set_j (set_bid F bid) 0 in
            bind (jloop (jfuel askPrice F0) bidPrice askPrice F0)
                 (λ F1, iloop fuel bidPrice askPrice (set_i F1 (vi F1 + 1)))
        end
      else Ok F
  end.

(** The body of [for askPrice, asks := range ob.Asks] (lines 63-126). *)
Definition visit_ask (bidPrice askPrice : Z) (F : Frame) : result Frame :=
  match fAsks F !! askPrice with
  | None => Ok F
  | Some asks =>
      if askPrice <=? bidPrice then
        let F0 := set_i (set_asks F (fAsks F) asks (length asks)) 0 in
        iloop (S (bidsLen F0)) bidPrice askPrice F0
      else Ok F
  end.

Fixpoint range_asks (bidPrice : Z) (askOrder : list Z) (F : Frame)
  : result Frame :=
  match askOrder with
  | [] => Ok F
  | askPrice :: rest =>
      bind (visit_ask bidPrice askPrice F) (range_asks bidPrice rest)
  end.

(** The body of [for bidPrice, bids := range ob.Bids] (lines 61-130). *)
Definition visit_bid (bidPrice : Z) (askOrder : list Z) (F : Frame)
  : result Frame :=
  match fBids F !! bidPrice with
  | None => Ok F
  | Some bids =>
      bind (range_asks bidPrice askOrder
              (set_bids F (fBids F) bids (length bids)))
           (λ F1, Ok (if matches F1 then F1 else print F1 NoMatch))
  end.

(** A schedule gives the order in which the outer [range] produces the bid
    prices and, for each of them, the order in which the inner [range]
    produces the ask prices. *)
Fixpoint range_bids (sched : list (Z * list Z)) (F : Frame) : result Frame :=
  match sched with
  | [] => Ok F
  | (bidPrice, askOrder) :: rest =>
      bind (visit_bid bidPrice askOrder F) (range_bids rest)
  end.

Definition no_order : Order := mkOrder 0 0 "" 0 0 "" 0 false false.

Definition enter (ob : OrderBook) : Frame :=
  mkFrame (Bids ob) (Asks ob) false [] [] 0 [] 0 0 0 no_order.

Definition leave (ob : OrderBook) (F : Frame) : OrderBook * list Event :=
  (mkBook (fBids F) (fAsks F) (nextOrderID ob) (stopClosed ob), out F).

Definition MatchOrders (sched : list (Z * list Z)) (ob : OrderBook)
  : result (OrderBook * list Event) :=
  if (size (Bids ob) =? 0)%nat || (size (Asks ob) =? 0)%nat then Ok (ob, [])
  else bind (range_bids sched (enter ob)) (λ F, Ok (leave ob F)).

(** The schedules Go can follow on [ob]: the bid prices are the keys of
    [ob.Bids] in some order, and each inner order lists the keys of
    [ob.Asks]. *)
Definition enumerates (sched : list (Z * list Z)) (ob : OrderBook) : Prop :=
  sched.*1 ≡ₚ (map_to_list (Bids ob)).*1 ∧
  Forall (λ s, s.2 ≡ₚ (map_to_list (Asks ob)).*1) sched.

Definition is_fill (e : Event) : bool :=
  match e with Fill _ _ _ _ _ => true | NoMatch => false end.

Definition fills (es : list Event) : list Event :=
  filter (λ e, is_fill e = true) es.

(** ** Sequences of calls on one book

    The calls are serialised by the mutex; a sequence of calls is a list
    of operations in the order in which they acquired it.  [run] also
    returns the ids given to the submitted orders, in that order. *)
Inductive op : Type :=
| Submit (order : Order) (now : Z)
| Match (sched : list (Z * list Z))
| Stop.

Fixpoint run (ops : list op) (ob : OrderBook) : result (OrderBook * list Z) :=
  match ops with
  | [] => Ok (ob, [])
  | Submit order now :: rest =>
      bind (run rest (AddOrder order now ob))
           (λ r, Ok (r.1, Id (stamp order now ob) :: r.2))
  | Match sched :: rest =>
      bind (MatchOrders sched ob) (λ r, run rest r.1)
  | Stop :: rest =>
      bind (StopMatching ob) (run rest)
  end.

Definition submitted (ops : list op) : list Order :=
  omap (λ o, match o with Submit order _ => Some order | _ => None end) ops.

(** [P] holds of every order resting in the book. *)
Definition resting (P : Order → Prop) (ob : OrderBook) : Prop :=
  ∀ p l, Bids ob !! p = Some l ∨ Asks ob !! p = Some l → Forall P l.

(** The flags agree with the kind, as [AddOrder] derives them. *)
Definition flags_ok (o : Order) : Prop := GTC o = true ↔ OrderType o = 3.

(** Smallest and largest key of a side. *)
Definition best_ask (ob : OrderBook) : option Z :=
  foldr (λ p acc, Some (from_option (Z.min p) p acc)) None
        (map_to_list (Asks ob)).*1.

Definition best_bid (ob : OrderBook) : option Z :=
  foldr (λ p acc, Some (from_option (Z.max p) p acc)) None
        (map_to_list (Bids ob)).*1.

Definition crossed (e : Event) : Prop :=
  match e with
  | Fill bidLevel price _ _ _ => price <= bidLevel
  | NoMatch => True
  end.

(** ** Concrete books used below *)

Definition order (side kind : string) (price size : Z) : Order :=
  mkOrder price 0 "QQQ" size (GetType kind) side 0 false false.

Fixpoint submit_all (orders : list Order) (now : Z) (ob : OrderBook)
  : OrderBook :=
  match orders with
  | [] => ob
  | o :: rest => submit_all rest (now + 1) (AddOrder o now ob)
  end.


(** ** Invariants of the state of a pass *)

Definition all_levels (P : Order → Prop) (m : gmap Z (list Order)) : Prop :=
  map_Forall (λ _ l, Forall P l) m.

(** Every order in the maps and in the backing arrays of the local slices
    satisfies [Pb] (bid side) or [Pa] (ask side). *)
Definition inv_orders (Pb Pa : Order → Prop) (F : Frame) : Prop :=
  all_levels Pb (fBids F) ∧ all_levels Pa (fAsks F) ∧
  Forall Pb (bidsArr F) ∧ Forall Pa (asksArr F).

Definition inv_crossed (F : Frame) : Prop := Forall crossed (out F).

(** What decreases in the [j] loop and in the [i] loop. *)
Definition jmeasure (askPrice : Z) (F : Frame) : Z :=
  Z.of_nat (asksLen F) + Z.of_nat (length (level (fAsks F) askPrice)) - vj F.

Definition imeasure (F : Frame) : Z := Z.of_nat (bidsLen F) - vi F.

(** Nothing trades while no order of kind 1 is in sight: the maps are
    those of the start of the pass and no fill has been printed. *)
Definition inv_idle (B0 A0 : gmap Z (list Order)) (F : Frame) : Prop :=
  fBids F = B0 ∧ fAsks F = A0 ∧ fills (out F) = [] ∧
  Forall (λ o, OrderType o ≠ 1) (bidsArr F) ∧
  Forall (λ o, OrderType o ≠ 1) (asksArr F) ∧
  OrderType (vbid F) ≠ 1.

(** What [StopMatching] leaves of one price level: [None] when the level
    is deleted. *)
Definition kept (orders : list Order) : option (list Order) :=
  let newOrders := filter (λ o, GTC o = true) orders in
  if (length newOrders =? 0)%nat then None else Some newOrders.

(** ** Books used in the examples *)

(** A fill-or-kill buy of 10 against a market sell of 7. *)
Definition book_fok_market : OrderBook :=
  submit_all [order "buy" "fok" 100 10; order "sell" "market" 100 7]
             0 NewOrderBook.

(** Test 4 of [main.go]: a fill-or-kill buy of 5 against a fill-or-kill
    sell of 10. *)
Definition book_fok_fok : OrderBook :=
  submit_all [order "buy" "fok" 100 5; order "sell" "fok" 100 10]
             0 NewOrderBook.

(** A market buy of 10 against a market sell of 20. *)
Definition book_partial : OrderBook :=
  submit_all [order "buy" "market" 100 10; order "sell" "market" 100 20]
             0 NewOrderBook.

(** Two GTC buys, a GTC sell and a market sell, all at 100, size 10. *)
Definition book_rematch : OrderBook :=
  submit_all [order "buy" "gtc" 100 10; order "buy" "gtc" 100 10;
              order "sell" "gtc" 100 10; order "sell" "market" 100 10]
             0 NewOrderBook.

(** A market buy at 100 against market sells at 99 and at 100. *)
Definition book_two_asks : OrderBook :=
  submit_all [order "buy" "market" 100 10; order "sell" "market" 99 20;
              order "sell" "market" 100 20]
             0 NewOrderBook.

(** A GTC buy and a GTC sell at the same price. *)
Definition book_two_gtc : OrderBook :=
  submit_all [order "buy" "gtc" 100 10; order "sell" "gtc" 100 10]
             0 NewOrderBook.

(** The non-crossing GTC orders of test 5 of [main.go], with a market buy
    and a fill-or-kill sell added. *)
Definition book_mixed : OrderBook :=
  submit_all [order "buy" "gtc" 98 90; order "sell" "gtc" 102 30;
              order "buy" "market" 98 10; order "sell" "fok" 103 5]
             0 NewOrderBook.

Definition the_order (id ts : Z) (side : string) (kind price size : Z)
  (gtc fok : bool) : Order :=
  mkOrder price id "QQQ" size kind side ts gtc fok.

(** [book_rematch] after one pass. *)
Definition book_rematch_1 : OrderBook :=
  mkBook {[100 := [the_order 0 0 "buy" 3 100 10 true false]]}
         {[100 := [the_order 3 3 "sell" 1 100 10 false false]]}
         4 false.

(** The state of a pass when it is about to compare the first bid with the
    first ask of the level 100. *)
Definition first_pair (ob : OrderBook) : Frame :=
  let bids := level (Bids ob) 100 in
  let asks := level (Asks ob) 100 in
  mkFrame (Bids ob) (Asks ob) false [] bids (length bids) asks (length asks)
          0 0 (default no_order (bids !! 0%nat)).

(** Calls used in the examples. *)
Definition some_calls : list op :=
  [Submit (order "buy" "market" 100 10) 0;
   Submit (order "hold" "market" 100 10) 1;
   Submit (order "sell" "market" 100 20) 2;
   Match [(100, [100])];
   Submit (order "sell" "gtc" 101 5) 3;
   Stop].

(** * Further definitions

    ** Statements about [AddOrder] *)

(** The map an order is filed in, and the other one. *)
Definition own_side (order : Order) (ob : OrderBook) : gmap Z (list Order) :=
  if String.eqb (Side order) "buy" then Bids ob else Asks ob.

Definition other_side (order : Order) (ob : OrderBook)
  : gmap Z (list Order) :=
  if String.eqb (Side order) "buy" then Asks ob else Bids ob.

(** Oldest first. *)
Definition by_time (a b : Order) : Prop := Timestamp a <= Timestamp b.

Definition newest_first (a b : Order) : Prop := Timestamp b <= Timestamp a.

(** ** Statements about a pass *)

Definition positive_fill (e : Event) : Prop :=
  match e with
  | Fill _ _ size _ _ => 0 < size
  | NoMatch => True
  end.

Definition inv_positive (F : Frame) : Prop := Forall positive_fill (out F).

(** The lines ["No matches found this iteration"] come first. *)
Definition inv_quiet_first (F : Frame) : Prop :=
  ∃ k fs, out F = replicate k NoMatch ++ fs ∧
          Forall (λ e, is_fill e = true) fs ∧
          (matches F = false → fs = []).

Definition no_empty_level (m : gmap Z (list Order)) : Prop :=
  map_Forall (λ _ l, l ≠ []) m.

Definition inv_no_empty (F : Frame) : Prop :=
  no_empty_level (fBids F) ∧ no_empty_level (fAsks F).

(** Every level of [m] is what is left of that level of [m0] after
    deleting some of its orders. *)
Definition sub_levels (m m0 : gmap Z (list Order)) : Prop :=
  ∀ q l, m !! q = Some l → ∃ l0, m0 !! q = Some l0 ∧ l `sublist_of` l0.

(** The state of a pass between two bid levels; while it visits the bid
    level [bp]; and while it matches the levels [bp] and [ap].  The local
    slice [bids] holds orders of the level [bp], and the map entry of the
    ask level is a prefix of the array of the local slice [asks]. *)
Definition sub_top (B0 A0 : gmap Z (list Order)) (F : Frame) : Prop :=
  sub_levels (fBids F) B0 ∧ sub_levels (fAsks F) A0.

Definition sub_bid (B0 A0 : gmap Z (list Order)) (bp : Z) (F : Frame)
  : Prop :=
  sub_top B0 A0 F ∧
  (bidsLen F ≤ length (bidsArr F))%nat ∧
  ∃ l0, B0 !! bp = Some l0 ∧ take (bidsLen F) (bidsArr F) `sublist_of` l0.

Definition sub_pair (B0 A0 : gmap Z (list Order)) (bp ap : Z) (F : Frame)
  : Prop :=
  sub_bid B0 A0 bp F ∧
  level (fAsks F) ap =
    take (length (level (fAsks F) ap)) (asksArr F).

(** ** Statements about the books that sequences of calls lead to *)

(** [Q] holds of every price level of the book. *)
Definition levels_of (ob : OrderBook) (Q : list Order → Prop) : Prop :=
  ∀ p l, Bids ob !! p = Some l ∨ Asks ob !! p = Some l → Q l.

Definition is_resting (o : Order) (ob : OrderBook) : Prop :=
  ∃ p l, (Bids ob !! p = Some l ∨ Asks ob !! p = Some l) ∧ o ∈ l.

(** The order at index [i] of the level [p] of the bids ([buy = true]) or
    of the asks. *)
Definition at_pos (ob : OrderBook) (buy : bool) (p : Z) (i : nat)
  : option Order :=
  (if buy then Bids ob else Asks ob) !! p ≫= (λ l, l !! i).

(** Every order rests on the side and at the price it names. *)
Definition filed_right (ob : OrderBook) : Prop :=
  (∀ p l, Bids ob !! p = Some l →
          Forall (λ o, Side o = "buy" ∧ Price o = p) l) ∧
  (∀ p l, Asks ob !! p = Some l →
          Forall (λ o, Side o = "sell" ∧ Price o = p) l).

(** What holds of the ids in a book as long as the counter has not
    wrapped. *)
Definition ids_ok (ob : OrderBook) : Prop :=
  0 <= nextOrderID ob ∧
  resting (λ o, 0 <= Id o < nextOrderID ob) ob ∧
  filed_right ob ∧
  levels_of ob (λ l, NoDup (Id <$> l)) ∧
  (∀ o1 o2, is_resting o1 ob → is_resting o2 ob → Id o1 = Id o2 → o1 = o2).

(** The book that [some_calls] lead to. *)
Definition book_after_calls : OrderBook :=
  mkBook ∅ {[101 := [the_order 3 3 "sell" 3 101 5 true false]]} 4 true.

(** [inv_idle] while the pass visits a bid level whose orders are [l]. *)
Definition inv_idle_at (B0 A0 : gmap Z (list Order)) (l : list Order)
  (F : Frame) : Prop :=
  inv_idle B0 A0 F ∧ bidsArr F = l ∧ bidsLen F = length l.

(** ** Price levels filed under NaN

    [orderFromParts] takes the price from [strconv.ParseFloat], which also
    reads ["NaN"].  In a Go map a NaN key is equal to no key, itself
    included: [m[NaN]] finds nothing, [m[NaN] = v] adds an entry each time,
    [delete(m, NaN)] removes nothing, and [range] produces the entries
    filed under NaN like the others.

    A [FloatBook] is a book with these entries: [numbered] holds the
    entries whose key is a number, [nanBids] and [nanAsks] the slices
    filed under NaN in [ob.Bids] and [ob.Asks]. *)
Record FloatBook := mkFloatBook {
  numbered : OrderBook;
  nanBids : list (list Order);
  nanAsks : list (list Order)
}.

Inductive float64 : Type :=
| Number (z : Z)
| NaN.

Definition set_Price (o : Order) (p : Z) : Order :=
  mkOrder p (Id o) (Ticker o) (Size o) (OrderType o) (Side o)
          (Timestamp o) (GTC o) (FOK o).

(** [AddOrder] for an order whose price is NaN: [ob.Bids[NaN]] reads as
    the nil slice, the assignment files the slice with the one order as a
    new entry, and [sort.Slice] is then given the nil slice again. *)
Definition AddOrder_NaN (order : Order) (now : Z) (fb : FloatBook)
  : FloatBook :=
  let ob := numbered fb in
  let order := stamp order now ob in
  let ob' := mkBook (Bids ob) (Asks ob) (wrap64 (nextOrderID ob + 1))
                    (stopClosed ob) in
  if String.eqb (Side order) "buy" then
    mkFloatBook ob' (nanBids fb ++ [[order]]) (nanAsks fb)
  else if String.eqb (Side order) "sell" then
    mkFloatBook ob' (nanBids fb) (nanAsks fb ++ [[order]])
  else mkFloatBook ob' (nanBids fb) (nanAsks fb).

(** [AddOrder] with the price of the order given apart, as a [float64].
    (The field [Price] of the record is the price when it is a number;
    for an order filed under NaN it is not read.) *)
Definition AddOrder_float (price : float64) (order : Order) (now : Z)
  (fb : FloatBook) : FloatBook :=
  match price with
  | Number p =>
      mkFloatBook (AddOrder (set_Price order p) now (numbered fb))
                  (nanBids fb) (nanAsks fb)
  | NaN => AddOrder_NaN order now fb
  end.

(** What an iteration of a loop of [StopMatching] adds to the map when the
    key is NaN: nothing when no order of the slice has the flag ([delete]
    removes nothing), and else a new entry with the flagged orders.  Go
    may or may not produce an entry created during the [range] later in
    the same [range]; [again] says how many times in a row that happens
    for the entries created from this one. *)
Fixpoint visit_NaN (again : nat) (orders : list Order) : list (list Order) :=
  let newOrders := filter (λ o, GTC o = true) orders in
  if (length newOrders =? 0)%nat then []
  else newOrders ::
       match again with
       | O => []
       | S again => visit_NaN again newOrders
       end.

(** The entries filed under NaN after a loop of [StopMatching]: those it
    found, and those it created.  ([again i] is for the entry number [i].) *)
Definition stop_NaN (again : nat → nat) (entries : list (list Order))
  : list (list Order) :=
  entries ++ concat (imap (λ i, visit_NaN (again i)) entries).

(** [StopMatching] on a book with entries under NaN.  An iteration
    touches the entry it visits or adds one under NaN, so that the
    iterations on the numbered entries and those on the others do not
    disturb each other. *)
Definition StopMatching_float (againBids againAsks : nat → nat)
  (fb : FloatBook) : result FloatBook :=
  bind (StopMatching (numbered fb))
       (λ ob, Ok (mkFloatBook ob (stop_NaN againBids (nanBids fb))
                              (stop_NaN againAsks (nanAsks fb)))).

(** A market order that its caller has flagged [GTC]. *)
Definition flagged_market_order : Order :=
  mkOrder 100 0 "QQQ" 10 1 "buy" 0 true false.

Definition book_flagged_market : OrderBook :=
  AddOrder flagged_market_order 0 NewOrderBook.

(** A GTC buy at 98, a market sell at 102, and a market buy at NaN. *)
Definition book_with_NaN : FloatBook :=
  AddOrder_float NaN (order "buy" "market" 0 10) 2
    (AddOrder_float (Number 102) (order "sell" "market" 0 30) 1
       (AddOrder_float (Number 98) (order "buy" "gtc" 0 90) 0
          (mkFloatBook NewOrderBook [] []))).

(** A market buy of 20 against a market sell of 10. *)
Definition book_double : OrderBook :=
  submit_all [order "buy" "market" 100 20; order "sell" "market" 100 10]
             0 NewOrderBook.

(** ** server.go

    The methods [joinExchange], [leaveExchange] and [trade] run under the
    mutex of the server; every book the server creates has the matching
    goroutine that [NewOrderBook] starts, which calls [MatchOrders] under
    the mutex of the book.  A run of the server is the sequence of these
    calls in the order in which they took the locks.  A connection is a
    number; [written] lists the calls of [conn.Write], oldest first (their
    results are ignored by the code).  The parsing of the lines in
    [handleClient] and [orderFromParts] is not modelled. *)

Definition Conn : Type := nat.

(** What the server writes to a connection. *)
Inductive reply : Type :=
| JoinedExchange (exchangeName : string)
| LeftExchange (exchangeName : string)
| NotInExchange (exchangeName : string)
| OrderAdded (exchangeName : string).

Definition newline : string := String (Ascii.ascii_of_nat 10) "".

(** The bytes of a reply, as [fmt.Sprintf] formats them. *)
Definition render (r : reply) : string :=
  match r with
  | JoinedExchange n => "Joined exchange: " +:+ n +:+ newline
  | LeftExchange n => "Left exchange: " +:+ n +:+ newline
  | NotInExchange n => "Not in exchange " +:+ n +:+ newline
  | OrderAdded n => "Order added to " +:+ n +:+ " exchange" +:+ newline
  end.

Record Server := mkServer {
  clients : gmap Conn string;
  exchanges : gmap string OrderBook;
  written : list (Conn * reply)
}.

Definition NewServer : Server := mkServer ∅ ∅ [].

Definition joinExchange (exchangeName : string) (conn : Conn) (s : Server)
  : Server :=
  let exchanges' :=
    match exchanges s !! exchangeName with
    | None => <[exchangeName := NewOrderBook]> (exchanges s)
    | Some _ => exchanges s
    end in
  mkServer (<[conn := exchangeName]> (clients s)) exchanges'
           (written s ++ [(conn, JoinedExchange exchangeName)]).

Definition leaveExchange (exchangeName : string) (conn : Conn) (s : Server)
  : Server :=
  let written' :=
    match exchanges s !! exchangeName with
    | None => written s ++ [(conn, LeftExchange exchangeName)]
    | Some _ => written s
    end in
  mkServer (delete conn (clients s)) (exchanges s)
           (written' ++ [(conn, LeftExchange exchangeName)]).

(** [now] is the reading of the clock in [AddOrder]. *)
Definition trade (exchangeName : string) (order : Order) (conn : Conn)
  (now : Z) (s : Server) : Server :=
  match exchanges s !! exchangeName with
  | None =>
      mkServer (clients s) (exchanges s)
               (written s ++ [(conn, NotInExchange exchangeName)])
  | Some exchange =>
      mkServer (clients s)
               (<[exchangeName := AddOrder order now exchange]> (exchanges s))
               (written s ++ [(conn, OrderAdded exchangeName)])
  end.

(** One pass of the matching goroutine of the book [exchangeName].  A
    panic in it ends the program. *)
Definition tick (exchangeName : string) (sched : list (Z * list Z))
  (s : Server) : result Server :=
  match exchanges s !! exchangeName with
  | None => Ok s
  | Some exchange =>
      bind (MatchOrders sched exchange)
           (λ r, Ok (mkServer (clients s)
                              (<[exchangeName := r.1]> (exchanges s))
                              (written s)))
  end.

Inductive command : Type :=
| Join (exchangeName : string) (conn : Conn)
| Leave (exchangeName : string) (conn : Conn)
| Trade (exchangeName : string) (order : Order) (conn : Conn) (now : Z)
| Tick (exchangeName : string) (sched : list (Z * list Z)).

Fixpoint serve (cmds : list command) (s : Server) : result Server :=
  match cmds with
  | [] => Ok s
  | Join n c :: rest => serve rest (joinExchange n c s)
  | Leave n c :: rest => serve rest (leaveExchange n c s)
  | Trade n o c now :: rest => serve rest (trade n o c now s)
  | Tick n sched :: rest => bind (tick n sched s) (serve rest)
  end.

(** The names of the [JOIN] commands. *)
Definition joined (cmds : list command) : list string :=
  omap (λ c, match c with Join n _ => Some n | _ => None end) cmds.

(** The calls that reach the book of [name]: the orders and the passes
    addressed to it from the moment it exists ([present] tells whether it
    does when [cmds] starts). *)
Fixpoint book_ops (name : string) (present : bool) (cmds : list command)
  : list op :=
  match cmds with
  | [] => []
  | Join n _ :: rest => book_ops name (present || String.eqb n name) rest
  | Leave _ _ :: rest => book_ops name present rest
  | Trade n o _ now :: rest =>
      if present && String.eqb n name
      then Submit o now :: book_ops name present rest
      else book_ops name present rest
  | Tick n sched :: rest =>
      if present && String.eqb n name
      then Match sched :: book_ops name present rest
      else book_ops name present rest
  end.

(** What a run of the server shows to the outside: its books and what it
    has written. *)
Definition outcome (r : result Server)
  : result (gmap string OrderBook * list (Conn * reply)) :=
  bind r (λ s, Ok (exchanges s, written s)).

Definition added_to (name : string) (w : Conn * reply) : bool :=
  match w.2 with
  | OrderAdded n => String.eqb n name
  | _ => false
  end.

(** The number of confirmations ["Order added to <name> exchange"]. *)
Definition confirmations (name : string) (w : list (Conn * reply)) : nat :=
  length (filter (λ x, added_to name x = true) w).

(** [orderFromParts]: [parts] are the seven fields that [handleClient]
    has split a [TRADE] line into.  The two parsers of [strconv] are
    parameters (the code ignores their errors); the price is taken to be
    a number, see the note on NaN at the top.  [now] is the reading of
    [time.Now()].  The fields [Id], [GTC] and [FOK] are not set: they
    have Go's zero values. *)
Section wire.
Variable ParseFloat : string → Z.
Variable Atoi : string → Z.

Definition orderFromParts (parts : list string) (now : Z) : result Order :=
  match parts !! 2%nat, parts !! 3%nat, parts !! 4%nat, parts !! 5%nat,
        parts !! 6%nat with
  | Some side, Some orderType, Some price, Some size, Some ticker =>
      Ok (mkOrder (ParseFloat price) 0 ticker (Atoi size) (GetType orderType)
                  side now false false)
  | _, _, _, _, _ => Panic
  end.

(** The orders of the [TRADE] commands are built by [orderFromParts]. *)
Definition from_the_wire (c : command) : Prop :=
  match c with
  | Trade _ o _ _ => ∃ parts now, orderFromParts parts now = Ok o
  | _ => True
  end.

End wire.

(** The orders of the [TRADE] commands. *)
Definition trade_orders (cmds : list command) : list Order :=
  omap (λ c, match c with Trade _ o _ _ => Some o | _ => None end) cmds.

(** Two clients on the exchange QQQ; the second one trades without
    having joined. *)
Definition some_commands : list command :=
  [Join "QQQ" 1%nat; Trade "QQQ" (order "buy" "market" 100 10) 1%nat 0;
   Leave "QQQ" 1%nat; Trade "QQQ" (order "sell" "market" 100 10) 2%nat 1;
   Trade "SPY" (order "sell" "market" 100 10) 2%nat 2;
   Tick "QQQ" [(100, [100])];
   Trade "QQQ" (order "sell" "gtc" 101 5) 2%nat 3].

(** The book of QQQ after [some_commands]: the two market orders have
    been matched. *)
Definition book_QQQ : OrderBook :=
  mkBook ∅ {[101 := [the_order 2 3 "sell" 3 101 5 true false]]} 3 false.

Definition after_some_commands : Server :=
  mkServer ∅ {["QQQ" := book_QQQ]}
    [(1%nat, JoinedExchange "QQQ"); (1%nat, OrderAdded "QQQ");
     (1%nat, LeftExchange "QQQ"); (2%nat, OrderAdded "QQQ");
     (2%nat, NotInExchange "SPY"); (2%nat, OrderAdded "QQQ")].
(** * Basic facts *)

Lemma wrap64_id z : int64 z → wrap64 z = z.
Proof.
  unfold int64, wrap64. intros H.
  rewrite Z.mod_small by lia. lia.
Qed.

Section slices.
Context (P : Order → Prop).

Lemma Forall_shift_del arr k n : Forall P arr → Forall P (shift_del arr k n).
Proof.
  intros H. unfold shift_del.
  rewrite !Forall_app. split_and!.
  - by apply Forall_take.
  - by apply Forall_drop, Forall_take.
  - by apply Forall_drop.
Qed.

Lemma index_Forall arr n i o : Forall P arr → index arr n i = Some o → P o.
Proof.
  unfold index. intros H. case_match; [|done].
  intros Hl. eapply Forall_lookup_1; eauto.
Qed.
End slices.

Lemma length_shift_del arr k n :
  (k < n)%nat → (n ≤ length arr)%nat → length (shift_del arr k n) = length arr.
Proof.
  intros Hk Hn. unfold shift_del.
  rewrite !length_app, !length_drop, !length_take. lia.
Qed.

Lemma level_Some m p l : m !! p = Some l → level m p = l.
Proof. unfold level. by intros ->. Qed.

Lemma level_None m p : m !! p = None → level m p = [].
Proof. unfold level. by intros ->. Qed.

Lemma fok_cancel_dead bid ask :
  fok_cancel bid ask (Z.min (Size bid) (Size ask)) = false.
Proof.
  unfold fok_cancel.
  destruct (Z.min_spec (Size bid) (Size ask)) as [[_ ->]|[_ ->]];
    rewrite Z.eqb_refl; simpl; by rewrite ?andb_false_r.
Qed.

(** The cancel branch of lines 79-88 is never taken: [jbody] is the
    function below. *)
Lemma jbody_live bidPrice askPrice F :
  jbody bidPrice askPrice F =
  match index (asksArr F) (asksLen F) (vi F) with
  | None => Panic
  | Some ask =>
      let bid := vbid F in
      let vol := Z.min (Size bid) (Size ask) in
      if eligible bid ask && (0 <? vol) then
        let bid := set_Size bid (wrap64 (Size bid - vol)) in
        let ask := set_Size ask (wrap64 (Size ask - vol)) in
        let F1 := record_fill (set_bid F bid)
                    (Fill bidPrice askPrice vol (Id bid) (Id ask)) in
        bind (if Size ask =? 0 then cleanup_ask askPrice F1 else Ok F1)
             (λ F2,
                if Size bid =? 0 then
                  bind (cleanup_bid bidPrice F2) (λ F3, Ok (Break, F3))
                else Ok (Next, F2))
      else Ok (Next, F)
  end.
Proof.
  unfold jbody. destruct (index _ _ _) as [ask|]; [|done].
  cbv zeta. rewrite fok_cancel_dead.
  by destruct (eligible _ _), (0 <? _).
Qed.

(** * Invariants of a pass

    A property of the state of the pass that the body of the innermost
    loop keeps, and that does not depend on the loop counters, holds when
    the pass ends. *)
Section pass_invariant.
Context (Inv : Frame → Prop).
Hypothesis Inv_set_i : ∀ F i, Inv F → Inv (set_i F i).
Hypothesis Inv_set_j : ∀ F j, Inv F → Inv (set_j F j).
Hypothesis Inv_set_bid : ∀ F b,
  Inv F → index (bidsArr F) (bidsLen F) (vi F) = Some b → Inv (set_bid F b).
Hypothesis Inv_jbody : ∀ bp ap F c F',
  ap <= bp → Inv F → jbody bp ap F = Ok (c, F') → Inv F'.
Hypothesis Inv_asks : ∀ F ap asks,
  Inv F → fAsks F !! ap = Some asks →
  Inv (set_asks F (fAsks F) asks (length asks)).
Hypothesis Inv_bids : ∀ F bp bids,
  Inv F → fBids F !! bp = Some bids →
  Inv (set_bids F (fBids F) bids (length bids)).
Hypothesis Inv_print : ∀ F, Inv F → Inv (print F NoMatch).

Lemma jloop_inv fuel bp ap F F' :
  ap <= bp → Inv F → jloop fuel bp ap F = Ok F' → Inv F'.
Proof.
  intros Hc. revert F. induction fuel as [|fuel IH]; intros F HF; [done|].
  simpl. case_match; [|by intros [= <-]].
  destruct (jbody bp ap F) as [[[] F1]| |] eqn:Hb; simpl; try done.
  - intros Hl. eapply IH; [|done]. eauto.
  - intros [= <-]. eauto.
Qed.

Lemma iloop_inv fuel bp ap F F' :
  ap <= bp → Inv F → iloop fuel bp ap F = Ok F' → Inv F'.
Proof.
  intros Hc. revert F. induction fuel as [|fuel IH]; intros F HF; [done|].
  cbn [iloop]. case_match; [|by intros [= <-]].
  destruct (index _ _ _) as [bid|] eqn:Hi; [|done].
  destruct (jloop _ _ _ _) as [F1| |] eqn:Hj; simpl; try done.
  intros Hl. eapply IH; [|done].
  apply Inv_set_i. eapply jloop_inv; [done| |done].
  apply Inv_set_j. by apply Inv_set_bid.
Qed.

Lemma visit_ask_inv bp ap F F' :
  Inv F → visit_ask bp ap F = Ok F' → Inv F'.
Proof.
  intros HF. unfold visit_ask.
  destruct (fAsks F !! ap) as [asks|] eqn:Ha; [|by intros [= <-]].
  case_match eqn:Hc; [|by intros [= <-]].
  apply Z.leb_le in Hc. intros Hl.
  eapply iloop_inv; [done| |done]. eauto.
Qed.

Lemma range_asks_inv bp askOrder F F' :
  Inv F → range_asks bp askOrder F = Ok F' → Inv F'.
Proof.
  revert F. induction askOrder as [|ap rest IH]; intros F HF; simpl.
  - by intros [= <-].
  - destruct (visit_ask bp ap F) as [F1| |] eqn:Hv; simpl; try done.
    apply IH. by eapply visit_ask_inv.
Qed.

Lemma visit_bid_inv bp askOrder F F' :
  Inv F → visit_bid bp askOrder F = Ok F' → Inv F'.
Proof.
  intros HF. unfold visit_bid.
  destruct (fBids F !! bp) as [bids|] eqn:Hb; [|by intros [= <-]].
  destruct (range_asks _ _ _) as [F1| |] eqn:Hr; simpl; try done.
  intros [= <-].
  assert (Inv F1) by (eapply range_asks_inv; [|done]; eauto).
  destruct (matches F1); eauto.
Qed.

Lemma range_bids_inv sched F F' :
  Inv F → range_bids sched F = Ok F' → Inv F'.
Proof.
  revert F. induction sched as [|[bp askOrder] rest IH]; intros F HF; simpl.
  - by intros [= <-].
  - destruct (visit_bid bp askOrder F) as [F1| |] eqn:Hv; simpl; try done.
    apply IH. by eapply visit_bid_inv.
Qed.
End pass_invariant.

(** ** Orders are only ever removed *)

Lemma all_levels_store_level P m p s :
  all_levels P m → Forall P s → all_levels P (store_level m p s).
Proof.
  intros Hm Hs. unfold store_level, all_levels.
  case_match.
  - by apply map_Forall_delete, map_Forall_insert_2.
  - by apply map_Forall_insert_2.
Qed.

Lemma all_levels_resync P m p arr :
  all_levels P m → Forall P arr → all_levels P (resync m p arr).
Proof.
  intros Hm Ha. unfold resync. case_match; [|done].
  apply map_Forall_insert_2; [|done]. by apply Forall_take.
Qed.

Section orders_invariant.
Context (Pb Pa : Order → Prop).

Lemma cleanup_ask_orders ap F F' :
  inv_orders Pb Pa F → cleanup_ask ap F = Ok F' → inv_orders Pb Pa F'.
Proof.
  intros (Hb & Ha & Hba & Haa). unfold cleanup_ask.
  case_match; [|done]. intros [= <-].
  assert (Forall Pa (shift_del (asksArr F) (Z.to_nat (vj F))
                       (length (level (fAsks F) ap))))
    by by apply Forall_shift_del.
  split_and!; simpl; try done.
  apply all_levels_store_level; [done|]. by apply Forall_take.
Qed.

Lemma cleanup_bid_orders bp F F' :
  inv_orders Pb Pa F → cleanup_bid bp F = Ok F' → inv_orders Pb Pa F'.
Proof.
  intros (Hb & Ha & Hba & Haa). unfold cleanup_bid.
  case_match; [|done]. intros [= <-].
  assert (Forall Pb (shift_del (bidsArr F) (Z.to_nat (vi F)) (bidsLen F)))
    by by apply Forall_shift_del.
  split_and!; simpl; try done.
  apply all_levels_store_level; [done|]. by apply Forall_take.
Qed.

Lemma jbody_orders bp ap F c F' :
  inv_orders Pb Pa F → jbody bp ap F = Ok (c, F') → inv_orders Pb Pa F'.
Proof.
  intros HF. rewrite jbody_live.
  destruct (index _ _ _) as [ask|]; [|done]. cbv zeta.
  case_match; [|by intros [= _ <-]].
  match goal with
  | |- bind (if ?c then _ else _) _ = _ → _ => destruct c
  end.
  - destruct (cleanup_ask _ _) as [F2| |] eqn:H2; simpl; try done.
    assert (inv_orders Pb Pa F2).
    { eapply cleanup_ask_orders; [|done]. exact HF. }
    case_match; [|by intros [= _ <-]].
    destruct (cleanup_bid _ _) as [F3| |] eqn:H3; simpl; try done.
    intros [= _ <-]. by eapply cleanup_bid_orders.
  - simpl. case_match; [|by intros [= _ <-]].
    destruct (cleanup_bid _ _) as [F3| |] eqn:H3; simpl; try done.
    intros [= _ <-]. eapply cleanup_bid_orders; [|done]. exact HF.
Qed.

Lemma range_bids_orders sched F F' :
  inv_orders Pb Pa F → range_bids sched F = Ok F' → inv_orders Pb Pa F'.
Proof.
  apply range_bids_inv.
  - done.
  - done.
  - done.
  - intros bp ap G c G' _. apply jbody_orders.
  - intros G ap asks (Hb & Ha & Hba & Haa) Hl.
    split_and!; simpl; try done. by apply (Ha ap).
  - intros G bp bids (Hb & Ha & Hba & Haa) Hl.
    split_and!; simpl; try done. by apply (Hb bp).
  - done.
Qed.

(** Whatever holds of the orders resting on a side before a pass holds
    of the orders resting on it afterwards. *)
Lemma MatchOrders_orders sched ob ob' es :
  all_levels Pb (Bids ob) → all_levels Pa (Asks ob) →
  MatchOrders sched ob = Ok (ob', es) →
  all_levels Pb (Bids ob') ∧ all_levels Pa (Asks ob').
Proof.
  intros Hb Ha. unfold MatchOrders. case_match; [by intros [= <- _]|].
  destruct (range_bids _ _) as [F| |] eqn:Hr; simpl; try done.
  intros [= <- _]. simpl.
  eapply range_bids_orders in Hr as (? & ? & _); [done|].
  by split_and!; simpl.
Qed.
End orders_invariant.

(** ** The loops end: the fuel is never used up *)

Lemma level_store_level m p s : level (store_level m p s) p = s.
Proof.
  unfold store_level, level. case_match eqn:Hs.
  - rewrite lookup_delete_eq. apply Nat.eqb_eq in Hs.
    by destruct s.
  - by rewrite lookup_insert_eq.
Qed.

Lemma cleanup_ask_measure ap F F' :
  cleanup_ask ap F = Ok F' →
  jmeasure ap F' <= jmeasure ap F ∧ imeasure F' = imeasure F.
Proof.
  unfold cleanup_ask, slice_del_ok. case_match eqn:Hok; [|done].
  intros [= <-]. unfold jmeasure, imeasure. simpl.
  rewrite level_store_level, length_take.
  apply andb_prop in Hok as [?%Z.leb_le ?%Z.leb_le]. lia.
Qed.

Lemma cleanup_bid_measure ap bp F F' :
  cleanup_bid bp F = Ok F' →
  jmeasure ap F' = jmeasure ap F ∧ imeasure F' = imeasure F.
Proof.
  unfold cleanup_bid, slice_del_ok. case_match eqn:Hok; [|done].
  intros [= <-]. unfold jmeasure, imeasure. simpl.
  apply andb_prop in Hok as [?%Z.leb_le ?%Z.leb_le]. lia.
Qed.

Lemma jbody_measure bp ap F c F' :
  jbody bp ap F = Ok (c, F') →
  jmeasure ap F' <= jmeasure ap F ∧ imeasure F' = imeasure F.
Proof.
  rewrite jbody_live.
  destruct (index _ _ _) as [ask|]; [|done]. cbv zeta.
  case_match; [|by intros [= _ <-]].
  set (F1 := record_fill _ _).
  assert (jmeasure ap F1 = jmeasure ap F ∧ imeasure F1 = imeasure F)
    as [Hj1 Hi1] by done.
  assert (∀ F2, (if Size (set_Size ask
                     (wrap64 (Size ask - Z.min (Size (vbid F)) (Size ask))))
                    =? 0
                 then cleanup_ask ap F1 else Ok F1) = Ok F2 →
                jmeasure ap F2 <= jmeasure ap F ∧ imeasure F2 = imeasure F)
    as Hstep.
  { intros F2. case_match.
    - intros [? ?]%cleanup_ask_measure. lia.
    - intros [= <-]. lia. }
  match goal with
  | |- bind ?r _ = _ → _ => destruct r as [F2| |]; simpl; try done
  end.
  destruct (Hstep F2 eq_refl) as [Hj2 Hi2].
  case_match; [|intros [= _ <-]; lia].
  destruct (cleanup_bid _ _) as [F3| |] eqn:H3; simpl; try done.
  intros [= _ <-]. apply (cleanup_bid_measure ap) in H3 as [? ?]. lia.
Qed.

Lemma jbody_fuel bp ap F : jbody bp ap F ≠ OutOfFuel.
Proof.
  rewrite jbody_live.
  destruct (index _ _ _) as [ask|]; [|done]. cbv zeta.
  case_match; [|done].
  unfold cleanup_ask, cleanup_bid.
  repeat (case_match; simpl; try done).
Qed.

Lemma jloop_imeasure fuel bp ap F F' :
  jloop fuel bp ap F = Ok F' → imeasure F' = imeasure F.
Proof.
  revert F. induction fuel as [|fuel IH]; intros F; [done|].
  simpl. case_match; [|by intros [= <-]].
  destruct (jbody bp ap F) as [[[] F1]| |] eqn:Hb; simpl; try done.
  - intros ->%IH. by apply jbody_measure in Hb as [_ <-].
  - intros [= <-]. by apply jbody_measure in Hb as [_ <-].
Qed.

Lemma jloop_fuel fuel bp ap F :
  Z.max 0 (jmeasure ap F) < Z.of_nat fuel → jloop fuel bp ap F ≠ OutOfFuel.
Proof.
  revert F. induction fuel as [|fuel IH]; intros F Hm; [lia|].
  simpl. case_match eqn:Hlt; [|done].
  apply Z.ltb_lt in Hlt.
  destruct (jbody bp ap F) as [[[] F1]| |] eqn:Hb; simpl; try done.
  - apply jbody_measure in Hb as [Hj _]. apply IH.
    unfold jmeasure in *. simpl. lia.
  - by apply jbody_fuel in Hb.
Qed.

Lemma iloop_fuel fuel bp ap F :
  Z.max 0 (imeasure F) < Z.of_nat fuel → iloop fuel bp ap F ≠ OutOfFuel.
Proof.
  revert F. induction fuel as [|fuel IH]; intros F Hm; [lia|].
  cbn [iloop]. case_match eqn:Hlt; [|done].
  apply Z.ltb_lt in Hlt.
  destruct (index _ _ _) as [bid|] eqn:Hi; [|done].
  destruct (jloop _ _ _ _) as [F1| |] eqn:Hj; simpl; try done.
  - apply jloop_imeasure in Hj. apply IH.
    unfold imeasure in *. simpl in *. lia.
  - apply jloop_fuel in Hj; [done|].
    unfold jfuel, jmeasure. simpl. lia.
Qed.

Lemma range_asks_fuel bp askOrder F : range_asks bp askOrder F ≠ OutOfFuel.
Proof.
  revert F. induction askOrder as [|ap rest IH]; intros F; [done|].
  simpl. destruct (visit_ask bp ap F) as [F1| |] eqn:Hv; simpl; try done.
  revert Hv. unfold visit_ask. repeat (case_match; try done).
  intros Hv. exfalso. eapply iloop_fuel; [|exact Hv].
  unfold imeasure. simpl. lia.
Qed.

Lemma range_bids_fuel sched F : range_bids sched F ≠ OutOfFuel.
Proof.
  revert F. induction sched as [|[bp askOrder] rest IH]; intros F; [done|].
  simpl. destruct (visit_bid bp askOrder F) as [F1| |] eqn:Hv; simpl; try done.
  revert Hv. unfold visit_bid. case_match; [|done].
  destruct (range_asks _ _ _) eqn:Hr; simpl; try done.
  by apply range_asks_fuel in Hr.
Qed.

(** A pass either completes or panics. *)
Lemma MatchOrders_fuel sched ob : MatchOrders sched ob ≠ OutOfFuel.
Proof.
  unfold MatchOrders. case_match; [done|].
  destruct (range_bids _ _) eqn:Hr; simpl; try done.
  by apply range_bids_fuel in Hr.
Qed.

(** ** What one candidate pair prints *)

Lemma cleanup_ask_out ap F F' : cleanup_ask ap F = Ok F' → out F' = out F.
Proof. unfold cleanup_ask. case_match; [|done]. by intros [= <-]. Qed.

Lemma cleanup_bid_out bp F F' : cleanup_bid bp F = Ok F' → out F' = out F.
Proof. unfold cleanup_bid. case_match; [|done]. by intros [= <-]. Qed.

Lemma jbody_spec bp ap F c F' ask :
  index (asksArr F) (asksLen F) (vi F) = Some ask →
  jbody bp ap F = Ok (c, F') →
  let vol := Z.min (Size (vbid F)) (Size ask) in
  if eligible (vbid F) ask && (0 <? vol)
  then out F' = out F ++ [Fill bp ap vol (Id (vbid F)) (Id ask)]
  else F' = F ∧ c = Next.
Proof.
  intros Hi. rewrite jbody_live, Hi. cbv zeta.
  destruct (eligible _ _ && _); [|by inversion 1].
  match goal with
  | |- bind ?r _ = _ → _ => destruct r as [F2| |] eqn:H2; simpl; try done
  end.
  assert (out F2 = out F ++
            [Fill bp ap (Z.min (Size (vbid F)) (Size ask)) (Id (vbid F))
               (Id ask)]) as Ho.
  { revert H2. case_match.
    - by intros ->%cleanup_ask_out.
    - by intros [= <-]. }
  clear H2.
  match goal with
  | |- (if ?c then _ else _) = _ → _ => destruct c
  end; [|by intros [= _ <-]].
  destruct (cleanup_bid _ _) as [F3| |] eqn:H3; simpl; try done.
  intros [= _ <-]. apply cleanup_bid_out in H3. congruence.
Qed.

Lemma jbody_crossed bp ap F c F' :
  ap <= bp → inv_crossed F → jbody bp ap F = Ok (c, F') → inv_crossed F'.
Proof.
  intros Hc HF Hb. unfold inv_crossed in *.
  destruct (index (asksArr F) (asksLen F) (vi F)) as [ask|] eqn:Hi.
  - pose proof (jbody_spec _ _ _ _ _ _ Hi Hb) as Hs. cbv zeta in Hs.
    destruct (eligible _ _ && _).
    + rewrite Hs. apply Forall_app. split; [done|].
      by apply Forall_singleton.
    + by destruct Hs as [-> _].
  - unfold jbody in Hb. by rewrite Hi in Hb.
Qed.

Lemma range_bids_crossed sched F F' :
  inv_crossed F → range_bids sched F = Ok F' → inv_crossed F'.
Proof.
  apply range_bids_inv.
  - done.
  - done.
  - done.
  - apply jbody_crossed.
  - done.
  - done.
  - intros G HG. unfold inv_crossed in *. simpl.
    apply Forall_app. split; [done|]. by apply Forall_singleton.
Qed.

(** ** A pass over a book without market orders *)

Lemma fills_app es1 es2 : fills (es1 ++ es2) = fills es1 ++ fills es2.
Proof. apply filter_app. Qed.

Lemma range_bids_idle B0 A0 sched F F' :
  all_levels (λ o, OrderType o ≠ 1) B0 →
  all_levels (λ o, OrderType o ≠ 1) A0 →
  inv_idle B0 A0 F → range_bids sched F = Ok F' → inv_idle B0 A0 F'.
Proof.
  intros HB HA. apply range_bids_inv.
  - done.
  - done.
  - intros G b (? & ? & ? & Hba & ? & ?) Hi. split_and!; try done.
    simpl. eapply (index_Forall (λ o, OrderType o ≠ 1)) in Hi; done.
  - intros bp ap G c G' _ (? & ? & ? & ? & Haa & Hb) Hj.
    destruct (index (asksArr G) (asksLen G) (vi G)) as [ask|] eqn:Hi.
    + pose proof (jbody_spec _ _ _ _ _ _ Hi Hj) as Hs. cbv zeta in Hs.
      eapply (index_Forall (λ o, OrderType o ≠ 1)) in Hi; [|exact Haa].
      simpl in Hi. unfold eligible in Hs.
      apply Z.eqb_neq in Hi, Hb. rewrite Hi, Hb in Hs. simpl in Hs.
      destruct Hs as [-> _]. apply Z.eqb_neq in Hb. by split_and!.
    + unfold jbody in Hj. by rewrite Hi in Hj.
  - intros G ap asks (? & HGA & ? & ? & ? & ?) Hl. split_and!; try done.
    simpl. subst. by apply (HA ap).
  - intros G bp bids (HGB & ? & ? & ? & ? & ?) Hl. split_and!; try done.
    simpl. subst. by apply (HB bp).
  - intros G (? & ? & Hf & ? & ? & ?). split_and!; try done.
    simpl. by rewrite fills_app, Hf.
Qed.

(** Orders that are not market orders never trade with each other, whatever
    their prices and sizes. *)
Lemma MatchOrders_no_market sched ob ob' es :
  resting (λ o, OrderType o ≠ 1) ob →
  MatchOrders sched ob = Ok (ob', es) → ob' = ob ∧ fills es = [].
Proof.
  intros Hr. unfold MatchOrders. case_match; [by intros [= <- <-]|].
  destruct (range_bids _ _) as [F| |] eqn:HF; simpl; try done.
  intros [= <- <-].
  eapply (range_bids_idle (Bids ob) (Asks ob)) in HF as (HB & HA & Hf & _).
  - rewrite HB, HA. by destruct ob.
  - intros p l Hl. apply (Hr p). by left.
  - intros p l Hl. apply (Hr p). by right.
  - by split_and!.
Qed.

(** ** AddOrder *)

Lemma sink_perm x rpre : sink x rpre ≡ₚ x :: rpre.
Proof.
  induction rpre as [|y r IH]; simpl; [done|].
  case_match; [|done]. rewrite IH. apply Permutation_swap.
Qed.

Lemma sort_by_timestamp_perm l : sort_by_timestamp l ≡ₚ l.
Proof.
  unfold sort_by_timestamp. rewrite <- Permutation_rev.
  assert (∀ acc, fold_left (λ racc x, sink x racc) l acc ≡ₚ l ++ acc) as H.
  { induction l as [|x l IH]; intros acc; simpl; [done|].
    rewrite IH, sink_perm. by rewrite Permutation_middle. }
  by rewrite H, app_nil_r.
Qed.

Lemma stamp_Id order now ob : Id (stamp order now ob) = nextOrderID ob.
Proof. unfold stamp. by repeat case_match. Qed.

Lemma stamp_Side order now ob : Side (stamp order now ob) = Side order.
Proof. unfold stamp. by repeat case_match. Qed.

Lemma stamp_Size order now ob : Size (stamp order now ob) = Size order.
Proof. unfold stamp. by repeat case_match. Qed.

Lemma stamp_flags_ok order now ob :
  GTC order = false → flags_ok (stamp order now ob).
Proof.
  intros Hg. unfold stamp, flags_ok. simpl.
  destruct (OrderType order =? 3) eqn:H3; simpl.
  - apply Z.eqb_eq in H3. done.
  - apply Z.eqb_neq in H3.
    destruct (OrderType order =? 4); simpl; rewrite Hg; split; done.
Qed.

Lemma AddOrder_nextOrderID order now ob :
  nextOrderID (AddOrder order now ob) = wrap64 (nextOrderID ob + 1).
Proof. unfold AddOrder. by repeat case_match. Qed.

Lemma AddOrder_stopClosed order now ob :
  stopClosed (AddOrder order now ob) = stopClosed ob.
Proof. unfold AddOrder. by repeat case_match. Qed.

Lemma resting_all_levels P ob :
  resting P ob ↔ all_levels P (Bids ob) ∧ all_levels P (Asks ob).
Proof.
  unfold resting, all_levels, map_Forall. split.
  - intros H. split; intros p l Hl; apply (H p); auto.
  - intros [Hb Ha] p l [Hl|Hl]; eauto.
Qed.

Lemma all_levels_level P m p : all_levels P m → Forall P (level m p).
Proof.
  intros Hm. unfold level. destruct (m !! p) as [l|] eqn:Hl; simpl.
  - by apply (Hm p).
  - constructor.
Qed.

Lemma AddOrder_resting P order now ob :
  P (stamp order now ob) → resting P ob → resting P (AddOrder order now ob).
Proof.
  intros Ho. rewrite !resting_all_levels. intros [Hb Ha].
  assert (∀ m, all_levels P m →
               Forall P (sort_by_timestamp
                           (level m (Price (stamp order now ob))
                              ++ [stamp order now ob]))) as Hs.
  { intros m Hm. rewrite sort_by_timestamp_perm. apply Forall_app.
    split; [by apply all_levels_level|by apply Forall_singleton]. }
  unfold AddOrder. cbv zeta. repeat case_match; simpl; split; try done.
  - apply map_Forall_insert_2; auto.
  - apply map_Forall_insert_2; auto.
Qed.

(** ** StopMatching *)

Lemma keep_GTC_lookup m p : keep_GTC m !! p = m !! p ≫= kept.
Proof.
  unfold keep_GTC.
  set (f := λ (price : Z) (orders : list Order) (acc : gmap Z (list Order)),
         let newOrders := filter (λ o, GTC o = true) orders in
         if (length newOrders =? 0)%nat then delete price acc
         else <[price := newOrders]> acc).
  assert (∀ m0 m' : gmap Z (list Order), ∀ k,
            map_fold f m0 m' !! k =
            match m' !! k with Some l => kept l | None => m0 !! k end) as H.
  { intros m0 m'.
    apply (map_fold_weak_ind
             (λ r m', ∀ k, r !! k =
                match m' !! k with Some l => kept l | None => m0 !! k end)).
    - intros k. by rewrite lookup_empty.
    - intros i x m1 r Hi IH k. unfold f, kept. cbv zeta.
      destruct (decide (i = k)) as [->|Hne].
      + rewrite lookup_insert_eq.
        case_match; [by rewrite lookup_delete_eq|by rewrite lookup_insert_eq].
      + rewrite (lookup_insert_ne m1) by done. rewrite <- IH.
        case_match; [by rewrite lookup_delete_ne|by rewrite lookup_insert_ne]. }
  rewrite H. by destruct (m !! p).
Qed.

Lemma kept_Some l l' :
  kept l = Some l' → l' = filter (λ o, GTC o = true) l ∧ l' ≠ [].
Proof.
  unfold kept. cbv zeta. case_match eqn:Hn; [done|].
  intros [= <-]. split; [done|].
  intros Hnil. rewrite Hnil in Hn. done.
Qed.

Lemma kept_None l : kept l = None → filter (λ o, GTC o = true) l = [].
Proof.
  unfold kept. cbv zeta. case_match eqn:Hn; [|done].
  intros _. apply Nat.eqb_eq in Hn. by apply nil_length_inv.
Qed.

Lemma keep_GTC_level m p :
  level (keep_GTC m) p = filter (λ o, GTC o = true) (level m p).
Proof.
  unfold level. rewrite keep_GTC_lookup.
  destruct (m !! p) as [l|]; simpl; [|done].
  destruct (kept l) as [l'|] eqn:Hk; simpl.
  - by apply kept_Some in Hk as [-> _].
  - by apply kept_None in Hk.
Qed.

Lemma keep_GTC_all_levels P m :
  all_levels P m → all_levels P (keep_GTC m).
Proof.
  intros Hm p l. rewrite keep_GTC_lookup.
  destruct (m !! p) as [l0|] eqn:Hl; simpl; [|done].
  intros [-> _]%kept_Some. apply Forall_forall.
  intros o [_ Ho]%list_elem_of_filter.
  specialize (Hm p l0 Hl). simpl in Hm.
  by eapply Forall_forall in Hm.
Qed.

Lemma keep_GTC_flag m :
  all_levels (λ o, GTC o = true) (keep_GTC m).
Proof.
  intros p l. rewrite keep_GTC_lookup.
  destruct (m !! p) as [l0|] eqn:Hl; simpl; [|done].
  intros [-> _]%kept_Some. apply Forall_forall.
  by intros o [? _]%list_elem_of_filter.
Qed.

Lemma keep_GTC_nonempty m p l : keep_GTC m !! p = Some l → l ≠ [].
Proof.
  rewrite keep_GTC_lookup.
  destruct (m !! p) as [l0|] eqn:Hl; simpl; [|done].
  by intros [_ ?]%kept_Some.
Qed.

Lemma filter_flags_ok l :
  Forall flags_ok l →
  filter (λ o, GTC o = true) l = filter (λ o, OrderType o = 3) l.
Proof.
  induction 1 as [|o l Ho _ IH]; [done|].
  rewrite !filter_cons, IH. unfold flags_ok in Ho.
  destruct (decide (GTC o = true)), (decide (OrderType o = 3)); tauto.
Qed.

Lemma StopMatching_resting P ob ob' :
  resting P ob → StopMatching ob = Ok ob' → resting P ob'.
Proof.
  rewrite !resting_all_levels. intros [Hb Ha]. unfold StopMatching.
  case_match; [done|]. intros [= <-]. simpl.
  split; by apply keep_GTC_all_levels.
Qed.

(** ** Sequences of calls *)

Lemma MatchOrders_counter sched ob ob' es :
  MatchOrders sched ob = Ok (ob', es) →
  nextOrderID ob' = nextOrderID ob ∧ stopClosed ob' = stopClosed ob.
Proof.
  unfold MatchOrders. case_match; [by intros [= <- _]|].
  destruct (range_bids _ _) as [F| |]; simpl; try done.
  by intros [= <- _].
Qed.

Lemma MatchOrders_resting P sched ob ob' es :
  resting P ob → MatchOrders sched ob = Ok (ob', es) → resting P ob'.
Proof.
  rewrite !resting_all_levels. intros [Hb Ha] Hm.
  by eapply MatchOrders_orders in Hm.
Qed.

Lemma run_resting P ops ob ob' ids :
  (∀ o now ob0, o ∈ submitted ops → P (stamp o now ob0)) →
  resting P ob → run ops ob = Ok (ob', ids) → resting P ob'.
Proof.
  revert ob ids. induction ops as [|[o now|sched|] ops IH]; intros ob ids Hs Hr.
  - by intros [= <- _].
  - simpl. destruct (run ops _) as [[ob1 ids1]| |] eqn:Hrun; simpl; try done.
    intros [= <- _]. eapply IH; [| |done].
    + intros o' now' ob0 Ho'. apply Hs. simpl. by right.
    + apply AddOrder_resting; [|done]. apply Hs. simpl. by left.
  - simpl. destruct (MatchOrders sched ob) as [[ob1 es]| |] eqn:Hm; simpl;
      try done.
    intros Hrun. eapply IH; [done| |done]. by eapply MatchOrders_resting.
  - simpl. destruct (StopMatching ob) as [ob1| |] eqn:Hst; simpl; try done.
    intros Hrun. eapply IH; [done| |done]. by eapply StopMatching_resting.
Qed.

Lemma submit_all_resting P orders now ob :
  (∀ o now ob0, o ∈ orders → P (stamp o now ob0)) →
  resting P ob → resting P (submit_all orders now ob).
Proof.
  revert now ob. induction orders as [|o orders IH]; intros now ob Hs Hr; [done|].
  simpl. apply IH.
  - intros o' now' ob0 Ho'. apply Hs. by right.
  - apply AddOrder_resting; [|done]. apply Hs. by left.
Qed.

Lemma resting_NewOrderBook P : resting P NewOrderBook.
Proof. intros p l [Hl|Hl]; simpl in Hl; by rewrite lookup_empty in Hl. Qed.

Lemma run_ids ops ob ob' ids :
  run ops ob = Ok (ob', ids) →
  int64 (nextOrderID ob) →
  nextOrderID ob + Z.of_nat (length ids) <= 2 ^ 63 →
  ids = seqZ (nextOrderID ob) (Z.of_nat (length ids)).
Proof.
  revert ob ids. induction ops as [|[o now|sched|] ops IH]; intros ob ids.
  - by intros [= <- <-].
  - simpl. destruct (run ops _) as [[ob1 ids1]| |] eqn:Hrun; simpl; try done.
    intros [= <- <-] Hi Hn. rewrite stamp_Id. simpl length in *.
    rewrite seqZ_cons by lia. f_equal.
    replace (Z.pred (Z.of_nat (S (length ids1)))) with
      (Z.of_nat (length ids1)) by lia.
    destruct ids1 as [|id1 ids1]; [done|].
    simpl length in *.
    assert (int64 (nextOrderID ob + 1)) by (unfold int64 in *; lia).
    apply IH in Hrun.
    + by rewrite AddOrder_nextOrderID, wrap64_id in Hrun.
    + by rewrite AddOrder_nextOrderID, wrap64_id.
    + rewrite AddOrder_nextOrderID, wrap64_id by done. simpl length. lia.
  - simpl. destruct (MatchOrders sched ob) as [[ob1 es]| |] eqn:Hm; simpl;
      try done.
    intros Hrun Hi Hn. apply MatchOrders_counter in Hm as [Hc _].
    rewrite <- Hc in *. by apply IH.
  - simpl. destruct (StopMatching ob) as [ob1| |] eqn:Hst; simpl; try done.
    intros Hrun Hi Hn. revert Hst. unfold StopMatching.
    case_match; [done|]. intros [= <-]. by apply IH in Hrun.
Qed.

Lemma run_ids_length ops ob ob' ids :
  run ops ob = Ok (ob', ids) → length ids = length (submitted ops).
Proof.
  revert ob ids. induction ops as [|[o now|sched|] ops IH]; intros ob ids.
  - by intros [= _ <-].
  - simpl. destruct (run ops _) as [[ob1 ids1]| |] eqn:Hrun; simpl; try done.
    intros [= <- <-]. change (S (length ids1) = S (length (submitted ops))).
    f_equal. by eapply IH.
  - simpl. destruct (MatchOrders sched ob) as [[ob1 es]| |]; simpl; try done.
    apply IH.
  - simpl. destruct (StopMatching ob) as [ob1| |]; simpl; try done.
    apply IH.
Qed.

(** * The claims *)

(** ** C1: fill-or-kill orders *)

(** C1.  The specification says that a fill-or-kill order of size N that
    meets a counter-order of size below N is removed with no fill recorded
    for it, and that fill-or-kill orders never stay resting.  The code
    tries to cancel such an order (lines 77-89) but its test can never
    succeed ([fok_cancel_dead]).  On [book_fok_market] the fill-or-kill buy
    of 10 (id 0) meets a market sell of 7 (id 1): the pass prints two fills
    for it, of 7 and of 3, the second one against the sell order that the
    first fill has already removed.  On [book_fok_fok], test 4 of
    [main.go], the two fill-or-kill orders are both still resting after
    the pass. *)
Theorem FOK_is_filled_in_part_or_rests :
  (∀ bid ask, fok_cancel bid ask (Z.min (Size bid) (Size ask)) = false) ∧
  Bids book_fok_market !! 100 = Some [the_order 0 0 "buy" 4 100 10 false true] ∧
  Asks book_fok_market !! 100 = Some [the_order 1 1 "sell" 1 100 7 false false] ∧
  enumerates [(100, [100])] book_fok_market ∧
  MatchOrders [(100, [100])] book_fok_market =
    Ok (mkBook ∅ ∅ 2 false, [Fill 100 100 7 0 1; Fill 100 100 3 0 1]) ∧
  Bids book_fok_fok !! 100 = Some [the_order 0 0 "buy" 4 100 5 false true] ∧
  Asks book_fok_fok !! 100 = Some [the_order 1 1 "sell" 4 100 10 false true] ∧
  enumerates [(100, [100])] book_fok_fok ∧
  MatchOrders [(100, [100])] book_fok_fok = Ok (book_fok_fok, [NoMatch]).
Proof.
  split; [apply fok_cancel_dead|].
  split_and!; try (vm_compute; reflexivity).
  - split; [vm_compute; reflexivity|]. by apply Forall_singleton.
  - split; [vm_compute; reflexivity|]. by apply Forall_singleton.
Qed.

(** ** C2: sizes after a fill *)

(** C2.  The specification says that a fill of volume v reduces the stored
    size of both orders by v and that an order with a remainder stays
    resting with the reduced size.  The code subtracts v from the copies
    [bid] and [ask] (lines 95-96) and never writes them back.  On
    [book_partial] a market buy of 10 is filled against a market sell of
    20: the fill of 10 is printed, and the sell order is still resting
    with size 20. *)
Theorem partial_fill_is_not_stored :
  Bids book_partial !! 100 = Some [the_order 0 0 "buy" 1 100 10 false false] ∧
  Asks book_partial !! 100 = Some [the_order 1 1 "sell" 1 100 20 false false] ∧
  enumerates [(100, [100])] book_partial ∧
  MatchOrders [(100, [100])] book_partial =
    Ok (mkBook ∅ {[100 := [the_order 1 1 "sell" 1 100 20 false false]]} 2 false,
        [Fill 100 100 10 0 1]).
Proof.
  split_and!; try (vm_compute; reflexivity).
  split; [vm_compute; reflexivity|]. by apply Forall_singleton.
Qed.

(** ** C3: the order in which levels are matched *)

(** C3, counterexample.  [book_two_asks] holds a market buy at 100 and
    market sells at 99 and at 100.  When the inner [range] produces the ask
    level 100 before the level 99, the only fill of the pass is made at
    the ask level 100, although the best ask is 99. *)
Lemma fill_away_from_best_ask :
  enumerates [(100, [100; 99])] book_two_asks ∧
  best_bid book_two_asks = Some 100 ∧
  best_ask book_two_asks = Some 99 ∧
  MatchOrders [(100, [100; 99])] book_two_asks =
    Ok (mkBook ∅ (Asks book_two_asks) 3 false, [Fill 100 100 10 0 2]).
Proof.
  split_and!; try (vm_compute; reflexivity).
  split; [vm_compute; reflexivity|].
  apply Forall_singleton. vm_compute. apply Permutation_swap.
Qed.

(** C3, as the code has it.  The pass visits the pairs of levels in the
    order in which the two [range] loops produce them and trades inside
    every pair whose bid price is at least the ask price (line 65): every
    fill of a pass that completes is made between a bid level and an ask
    level with ask price <= bid price, whatever the visiting order. *)
Theorem fills_are_between_crossed_levels sched ob ob' es :
  MatchOrders sched ob = Ok (ob', es) → Forall crossed es.
Proof.
  unfold MatchOrders. case_match; [by intros [= _ <-]|].
  destruct (range_bids _ _) as [F| |] eqn:HF; simpl; try done.
  intros [= _ <-]. eapply range_bids_crossed in HF; [done|].
  constructor.
Qed.

Lemma fills_are_between_crossed_levels_witness :
  Forall crossed [Fill 100 100 10 0 2].
Proof.
  apply (fills_are_between_crossed_levels [(100, [100; 99])] book_two_asks
           (mkBook ∅ (Asks book_two_asks) 3 false)).
  vm_compute. reflexivity.
Defined.

(** ** C4: a second pass *)

(** C4.  The specification says that a second pass without a submission in
    between makes no fill.  The inner loop reads [asks[i]] where line 104
    removes [ob.Asks[askPrice][j]] (the comment of line 70 says that
    [asks[j]] was meant).  On [book_rematch] the first pass fills the
    second bid (id 1) against the market sell (id 3), removes the GTC sell
    (id 2) instead of it, and leaves [book_rematch_1]; the second pass
    then fills the first bid (id 0) against the same market sell. *)
Theorem second_pass_fills_again :
  Bids book_rematch !! 100 =
    Some [the_order 0 0 "buy" 3 100 10 true false;
          the_order 1 1 "buy" 3 100 10 true false] ∧
  Asks book_rematch !! 100 =
    Some [the_order 2 2 "sell" 3 100 10 true false;
          the_order 3 3 "sell" 1 100 10 false false] ∧
  enumerates [(100, [100])] book_rematch ∧
  MatchOrders [(100, [100])] book_rematch =
    Ok (book_rematch_1, [Fill 100 100 10 1 3]) ∧
  enumerates [(100, [100])] book_rematch_1 ∧
  MatchOrders [(100, [100])] book_rematch_1 =
    Ok (mkBook ∅ ∅ 4 false, [Fill 100 100 10 0 3]).
Proof.
  split_and!; try (vm_compute; reflexivity).
  - split; [vm_compute; reflexivity|]. by apply Forall_singleton.
  - split; [vm_compute; reflexivity|]. by apply Forall_singleton.
Qed.

(** ** C5: which pairs trade *)

(** C5, counterexample.  [book_two_gtc] holds a GTC buy and a GTC sell of
    size 10 at the same price: the pass prints no fill and leaves both
    orders resting. *)
Lemma two_GTC_orders_do_not_trade :
  Bids book_two_gtc !! 100 = Some [the_order 0 0 "buy" 3 100 10 true false] ∧
  Asks book_two_gtc !! 100 = Some [the_order 1 1 "sell" 3 100 10 true false] ∧
  enumerates [(100, [100])] book_two_gtc ∧
  MatchOrders [(100, [100])] book_two_gtc = Ok (book_two_gtc, [NoMatch]).
Proof.
  split_and!; try (vm_compute; reflexivity).
  split; [vm_compute; reflexivity|]. by apply Forall_singleton.
Qed.

(** C5, as the code has it.  For the pair [bid], [asks[i]] that one
    iteration of the inner loop looks at, and when that iteration does not
    panic: a fill is printed exactly when at least one of the two orders
    has kind 1 (market) and the volume [min(bid.Size, ask.Size)] is
    positive; otherwise nothing changes and the loop goes on.  Two orders
    of the kinds limit, GTC or FOK never trade with each other. *)
Theorem trade_iff_market_leg bp ap F c F' ask :
  index (asksArr F) (asksLen F) (vi F) = Some ask →
  jbody bp ap F = Ok (c, F') →
  let vol := Z.min (Size (vbid F)) (Size ask) in
  let market_leg := OrderType (vbid F) = 1 ∨ OrderType ask = 1 in
  (market_leg ∧ 0 < vol ↔
     out F' = out F ++ [Fill bp ap vol (Id (vbid F)) (Id ask)]) ∧
  (¬ (market_leg ∧ 0 < vol) ↔ F' = F ∧ c = Next).
Proof.
  intros Hi Hj vol market_leg.
  pose proof (jbody_spec _ _ _ _ _ _ Hi Hj) as Hs. cbv zeta in Hs.
  fold vol in Hs.
  assert (∀ l (e : Event), l ≠ l ++ [e]) as Hne.
  { intros l e Hl. apply (f_equal length) in Hl.
    rewrite length_app in Hl. simpl in Hl. lia. }
  assert (eligible (vbid F) ask && (0 <? vol) = true ↔ market_leg ∧ 0 < vol)
    as Hdec.
  { unfold eligible, market_leg.
    rewrite andb_true_iff, orb_true_iff, !Z.eqb_eq, Z.ltb_lt. tauto. }
  destruct (eligible (vbid F) ask && (0 <? vol)).
  - assert (market_leg ∧ 0 < vol) as Hc by by apply Hdec.
    split; split; try done.
    intros [-> _]. by apply Hne in Hs.
  - assert (¬ (market_leg ∧ 0 < vol)) as Hc by (rewrite <- Hdec; done).
    destruct Hs as [-> ->]. split; split; try done.
    intros Ho. by apply Hne in Ho.
Qed.

Lemma trade_iff_market_leg_witness :
  jbody 100 100 (first_pair book_two_gtc) =
    Ok (Next, first_pair book_two_gtc) ∧
  ¬ ((OrderType (vbid (first_pair book_two_gtc)) = 1 ∨
      OrderType (the_order 1 1 "sell" 3 100 10 true false) = 1) ∧
     0 < Z.min (Size (vbid (first_pair book_two_gtc)))
               (Size (the_order 1 1 "sell" 3 100 10 true false))).
Proof.
  split; [vm_compute; reflexivity|].
  assert (index (asksArr (first_pair book_two_gtc))
                (asksLen (first_pair book_two_gtc))
                (vi (first_pair book_two_gtc)) =
          Some (the_order 1 1 "sell" 3 100 10 true false)) as Hi
    by (vm_compute; reflexivity).
  assert (jbody 100 100 (first_pair book_two_gtc) =
          Ok (Next, first_pair book_two_gtc)) as Hj
    by (vm_compute; reflexivity).
  destruct (trade_iff_market_leg 100 100 _ _ _ _ Hi Hj) as [_ H].
  apply H. split; reflexivity.
Defined.

(** ** C6: what a shutdown leaves *)


(** When the orders carry the flags that [AddOrder] derives from their
    kind, the flagged orders are the orders of kind 3: on such a book
    [StopMatching] returns a book in which every resting order has kind 3
    (GTC); every level consists of the GTC orders it held before,
    unchanged and in the same order; and a level without GTC orders is
    deleted from its map. *)
Theorem StopMatching_keeps_the_GTC_orders ob :
  stopClosed ob = false →
  resting flags_ok ob →
  ∃ ob', StopMatching ob = Ok ob' ∧
    resting (λ o, OrderType o = 3) ob' ∧
    (∀ p, level (Bids ob') p =
          filter (λ o, OrderType o = 3) (level (Bids ob) p)) ∧
    (∀ p, level (Asks ob') p =
          filter (λ o, OrderType o = 3) (level (Asks ob) p)) ∧
    (∀ p, filter (λ o, OrderType o = 3) (level (Bids ob) p) = [] →
          Bids ob' !! p = None) ∧
    (∀ p, filter (λ o, OrderType o = 3) (level (Asks ob) p) = [] →
          Asks ob' !! p = None).
Proof.
  intros Hopen Hflags. unfold StopMatching. rewrite Hopen.
  eexists. split; [done|]. simpl.
  pose proof Hflags as [Hb Ha]%resting_all_levels.
  assert (∀ m, all_levels flags_ok m →
            all_levels (λ o, OrderType o = 3) (keep_GTC m) ∧
            (∀ p, level (keep_GTC m) p =
                  filter (λ o, OrderType o = 3) (level m p)) ∧
            (∀ p, filter (λ o, OrderType o = 3) (level m p) = [] →
                  keep_GTC m !! p = None)) as Hside.
  { intros m Hm.
    assert (∀ p, level (keep_GTC m) p =
                 filter (λ o, OrderType o = 3) (level m p)) as Hlevel.
    { intros p. rewrite keep_GTC_level. apply filter_flags_ok.
      by apply all_levels_level. }
    split_and!; [|done|].
    - intros p l Hl. simpl.
      pose proof (keep_GTC_flag m p l Hl) as Hg.
      pose proof (keep_GTC_all_levels _ _ Hm p l Hl) as Hf.
      simpl in Hg, Hf. apply Forall_forall. intros o Ho.
      eapply Forall_forall in Hg, Hf; try done. by apply Hf.
    - intros p Hnil. rewrite <- Hlevel in Hnil.
      destruct (keep_GTC m !! p) as [l|] eqn:Hl; [|done].
      apply keep_GTC_nonempty in Hl as Hne.
      by rewrite (level_Some _ _ _ Hl) in Hnil. }
  destruct (Hside _ Hb) as (? & ? & ?), (Hside _ Ha) as (? & ? & ?).
  split_and!; try done. by apply resting_all_levels.
Qed.

Lemma book_mixed_flags_ok : resting flags_ok book_mixed.
Proof.
  apply submit_all_resting; [|apply resting_NewOrderBook].
  intros o now ob0 Ho. apply stamp_flags_ok.
  repeat (apply elem_of_cons in Ho as [->|Ho]; [reflexivity|]).
  by apply elem_of_nil in Ho.
Defined.

Lemma StopMatching_keeps_the_GTC_orders_witness :
  ∃ ob', StopMatching book_mixed = Ok ob' ∧
    resting (λ o, OrderType o = 3) ob' ∧
    (∀ p, level (Bids ob') p =
          filter (λ o, OrderType o = 3) (level (Bids book_mixed) p)) ∧
    (∀ p, level (Asks ob') p =
          filter (λ o, OrderType o = 3) (level (Asks book_mixed) p)) ∧
    (∀ p, filter (λ o, OrderType o = 3) (level (Bids book_mixed) p) = [] →
          Bids ob' !! p = None) ∧
    (∀ p, filter (λ o, OrderType o = 3) (level (Asks book_mixed) p) = [] →
          Asks ob' !! p = None).
Proof.
  apply (StopMatching_keeps_the_GTC_orders book_mixed).
  - reflexivity.
  - exact book_mixed_flags_ok.
Defined.




(** ** C7: a second shutdown *)

(** C7, counterexample.  After a first [StopMatching] on a new book the
    stop channel is closed; the second call closes it again and panics. *)
Lemma second_StopMatching_panics :
  StopMatching NewOrderBook = Ok (mkBook ∅ ∅ 0 true) ∧
  StopMatching (mkBook ∅ ∅ 0 true) = Panic.
Proof. split; vm_compute; reflexivity. Qed.

(** C7, as the code has it.  The book has no flag that records a
    shutdown and [StopMatching] starts with [close(ob.stopChan)]
    (line 135): the first call on a book completes, and a second call on
    the book it leaves panics (close of a closed channel). *)
Theorem StopMatching_once_then_panic ob :
  stopClosed ob = false →
  ∃ ob', StopMatching ob = Ok ob' ∧ StopMatching ob' = Panic.
Proof.
  intros Hopen. unfold StopMatching. rewrite Hopen.
  eexists. split; [reflexivity|]. reflexivity.
Qed.

Lemma StopMatching_once_then_panic_witness :
  ∃ ob', StopMatching book_mixed = Ok ob' ∧ StopMatching ob' = Panic.
Proof. apply (StopMatching_once_then_panic book_mixed). reflexivity. Defined.

(** The orders carry the flags that [AddOrder] derives from their kind in
    every book reached from a new one when the callers leave the flag
    [GTC] of the orders they submit unset, as [orderFromParts] and
    [main.go] do. *)
Lemma run_flags_ok ops ob ids :
  Forall (λ o, GTC o = false) (submitted ops) →
  run ops NewOrderBook = Ok (ob, ids) → resting flags_ok ob.
Proof.
  intros Hs. apply run_resting; [|apply resting_NewOrderBook].
  intros o now ob0 Ho. apply stamp_flags_ok.
  by eapply Forall_forall in Hs.
Qed.

(** ** C8: resting sizes *)

(** C8.  In every book reached from a new one by calls of [AddOrder] with
    orders of positive size, of [MatchOrders] (whatever the visiting
    orders) and of [StopMatching], every resting order has a positive
    size. *)
Theorem resting_sizes_are_positive ops ob ids :
  Forall (λ o, 0 < Size o) (submitted ops) →
  run ops NewOrderBook = Ok (ob, ids) →
  resting (λ o, 0 < Size o) ob.
Proof.
  intros Hs. apply run_resting; [|apply resting_NewOrderBook].
  intros o now ob0 Ho. rewrite stamp_Size.
  by eapply Forall_forall in Hs.
Qed.

Lemma resting_sizes_are_positive_witness :
  resting (λ o, 0 < Size o)
    (mkBook ∅ {[101 := [the_order 3 3 "sell" 3 101 5 true false]]} 4 true).
Proof.
  apply (resting_sizes_are_positive some_calls _ [0; 1; 2; 3]).
  - unfold some_calls, submitted. simpl. repeat constructor.
  - vm_compute. reflexivity.
Defined.

(** ** C9: order ids *)

(** C9.  The calls on one book are serialised by its mutex.  For every
    sequence of calls on a new book that does not panic, the ids given to
    the submitted orders, in the order of the calls, are 0, 1, 2, ...:
    the k-th submission gets the id k, so the ids increase strictly and
    none is used twice.  (The counter is a 64-bit integer: the statement
    is for at most 2^63 submissions.) *)
Theorem submission_ids_increase ops ob ids :
  run ops NewOrderBook = Ok (ob, ids) →
  Z.of_nat (length ids) <= 2 ^ 63 →
  length ids = length (submitted ops) ∧
  (∀ k id, ids !! k = Some id → id = Z.of_nat k) ∧
  (∀ k1 k2 id1 id2,
     ids !! k1 = Some id1 → ids !! k2 = Some id2 →
     (k1 < k2)%nat → id1 < id2) ∧
  NoDup ids.
Proof.
  intros Hrun Hn.
  pose proof (run_ids_length _ _ _ _ Hrun) as Hlen.
  apply run_ids in Hrun; [|done|simpl; lia]. simpl in Hrun.
  assert (∀ k id, ids !! k = Some id → id = Z.of_nat k) as Hk.
  { intros k id. rewrite Hrun at 1. rewrite lookup_seqZ. lia. }
  split_and!; try done.
  - intros k1 k2 id1 id2 ->%Hk ->%Hk. lia.
  - rewrite Hrun. apply NoDup_seqZ.
Qed.

Lemma submission_ids_increase_witness :
  length [0; 1; 2; 3] = length (submitted some_calls) ∧
  (∀ k id, [0; 1; 2; 3] !! k = Some id → id = Z.of_nat k) ∧
  (∀ k1 k2 id1 id2,
     [0; 1; 2; 3] !! k1 = Some id1 → [0; 1; 2; 3] !! k2 = Some id2 →
     (k1 < k2)%nat → id1 < id2) ∧
  NoDup [0; 1; 2; 3].
Proof.
  apply (submission_ids_increase some_calls
           (mkBook ∅ {[101 := [the_order 3 3 "sell" 3 101 5 true false]]}
                   4 true)).
  - vm_compute. reflexivity.
  - simpl. lia.
Defined.

(** ** C10: an order with an unknown side *)

(** C10.  When the field [Side] of the submitted order is neither ["buy"]
    nor ["sell"], [AddOrder] leaves both maps as they are and still
    increments the counter: the id [nextOrderID] is given to the order
    that is dropped, and whatever order is submitted next gets the id
    after it. *)
Theorem AddOrder_unknown_side_uses_an_id order now ob :
  Side order ≠ "buy" → Side order ≠ "sell" →
  Bids (AddOrder order now ob) = Bids ob ∧
  Asks (AddOrder order now ob) = Asks ob ∧
  Id (stamp order now ob) = nextOrderID ob ∧
  nextOrderID (AddOrder order now ob) = wrap64 (nextOrderID ob + 1) ∧
  (∀ order2 now2,
     Id (stamp order2 now2 (AddOrder order now ob)) =
     wrap64 (nextOrderID ob + 1)) ∧
  (int64 (nextOrderID ob + 1) →
   nextOrderID (AddOrder order now ob) = nextOrderID ob + 1).
Proof.
  intros Hbuy Hsell.
  assert (nextOrderID (AddOrder order now ob) = wrap64 (nextOrderID ob + 1))
    as Hnext by apply AddOrder_nextOrderID.
  assert (Bids (AddOrder order now ob) = Bids ob ∧
          Asks (AddOrder order now ob) = Asks ob) as [HB HA].
  { unfold AddOrder. cbv zeta. rewrite stamp_Side.
    apply String.eqb_neq in Hbuy, Hsell. by rewrite Hbuy, Hsell. }
  split_and!; try done.
  - apply stamp_Id.
  - intros order2 now2. by rewrite stamp_Id.
  - intros Hi. by rewrite Hnext, wrap64_id.
Qed.

Lemma AddOrder_unknown_side_uses_an_id_witness :
  Bids (AddOrder (order "hold" "market" 100 10) 7 book_partial) =
    Bids book_partial ∧
  Asks (AddOrder (order "hold" "market" 100 10) 7 book_partial) =
    Asks book_partial ∧
  Id (stamp (order "hold" "market" 100 10) 7 book_partial) =
    nextOrderID book_partial ∧
  nextOrderID (AddOrder (order "hold" "market" 100 10) 7 book_partial) =
    wrap64 (nextOrderID book_partial + 1) ∧
  (∀ order2 now2,
     Id (stamp order2 now2
           (AddOrder (order "hold" "market" 100 10) 7 book_partial)) =
     wrap64 (nextOrderID book_partial + 1)) ∧
  (int64 (nextOrderID book_partial + 1) →
   nextOrderID (AddOrder (order "hold" "market" 100 10) 7 book_partial) =
   nextOrderID book_partial + 1).
Proof.
  apply (AddOrder_unknown_side_uses_an_id (order "hold" "market" 100 10)
           7 book_partial); discriminate.
Defined.

(** * Further properties of the code

    ** AddOrder: where the order goes *)

Lemma sink_newest_first x rpre :
  StronglySorted newest_first rpre → StronglySorted newest_first (sink x rpre).
Proof.
  induction 1 as [|y r Hr IH Hy]; simpl.
  - repeat constructor.
  - case_match eqn:Hlt.
    + apply Z.ltb_lt in Hlt. constructor; [done|].
      rewrite sink_perm. constructor; [|done].
      unfold newest_first. lia.
    + apply Z.ltb_ge in Hlt. constructor; [by constructor|].
      constructor; [done|].
      eapply Forall_impl; [done|]. unfold newest_first. intros; lia.
Qed.

Lemma StronglySorted_rev_time l :
  StronglySorted newest_first l → StronglySorted by_time (rev l).
Proof.
  induction 1 as [|y r Hr IH Hy]; simpl; [constructor|].
  apply StronglySorted_app_2; [|done|repeat constructor].
  intros a b Ha ->%list_elem_of_singleton.
  apply list_elem_of_In, in_rev, list_elem_of_In in Ha.
  rewrite Forall_forall in Hy. by apply Hy.
Qed.

Lemma sort_by_timestamp_sorted l : StronglySorted by_time (sort_by_timestamp l).
Proof.
  unfold sort_by_timestamp. apply StronglySorted_rev_time.
  assert (∀ acc, StronglySorted newest_first acc →
                 StronglySorted newest_first
                   (fold_left (λ racc x, sink x racc) l acc)) as H.
  { induction l as [|x l IH]; intros acc Hacc; simpl; [done|].
    by apply IH, sink_newest_first. }
  apply H. constructor.
Qed.

Lemma sort_by_timestamp_sorted_input l :
  StronglySorted by_time l → sort_by_timestamp l = l.
Proof.
  intros Hl. unfold sort_by_timestamp.
  assert (∀ k acc, StronglySorted by_time (rev acc ++ k) →
                   fold_left (λ racc x, sink x racc) k acc = rev k ++ acc)
    as H.
  { induction k as [|x k IH]; intros acc Hs; simpl; [done|].
    assert (sink x acc = x :: acc) as ->.
    { destruct acc as [|y acc]; [done|]. simpl.
      apply StronglySorted_app_1_elem_of with (x1 := y) (x2 := x) in Hs.
      - unfold by_time in Hs. case_match eqn:Hlt; [|done].
        apply Z.ltb_lt in Hlt. lia.
      - simpl. apply elem_of_app. right. by apply list_elem_of_singleton.
      - by left. }
    rewrite IH.
    + by rewrite <- app_assoc.
    + simpl. by rewrite <- app_assoc. }
  rewrite H by done. by rewrite app_nil_r, rev_involutive.
Qed.

Lemma level_insert m p l : level (<[p := l]> m) p = l.
Proof. unfold level. by rewrite lookup_insert_eq. Qed.

Lemma stamp_Price order now ob : Price (stamp order now ob) = Price order.
Proof. unfold stamp. by repeat case_match. Qed.

Lemma stamp_Timestamp order now ob : Timestamp (stamp order now ob) = now.
Proof. unfold stamp. by repeat case_match. Qed.

Lemma AddOrder_own_side order now ob :
  Side order = "buy" ∨ Side order = "sell" →
  own_side order (AddOrder order now ob) =
    <[Price order :=
        sort_by_timestamp
          (level (own_side order ob) (Price order) ++ [stamp order now ob])]>
      (own_side order ob) ∧
  other_side order (AddOrder order now ob) = other_side order ob.
Proof.
  unfold own_side, other_side, AddOrder. cbv zeta.
  rewrite stamp_Side, stamp_Price.
  by intros [-> | ->].
Qed.

(** The order is filed, with its id, timestamp and flags, in the level of
    its price on its own side; that level is then sorted oldest first;
    nothing else in the book changes. *)
Theorem AddOrder_files_the_order order now ob :
  Side order = "buy" ∨ Side order = "sell" →
  level (own_side order (AddOrder order now ob)) (Price order) ≡ₚ
    stamp order now ob :: level (own_side order ob) (Price order) ∧
  StronglySorted by_time
    (level (own_side order (AddOrder order now ob)) (Price order)) ∧
  (∀ q, q ≠ Price order →
        own_side order (AddOrder order now ob) !! q = own_side order ob !! q) ∧
  other_side order (AddOrder order now ob) = other_side order ob.
Proof.
  intros [Hown Hother]%(AddOrder_own_side order now ob).
  rewrite Hown, !level_insert.
  split_and!; try done.
  - rewrite sort_by_timestamp_perm. by rewrite <- Permutation_cons_append.
  - apply sort_by_timestamp_sorted.
  - intros q Hq. by rewrite lookup_insert_ne.
Qed.

Lemma AddOrder_files_the_order_witness :
  level (own_side (order "sell" "gtc" 100 5)
           (AddOrder (order "sell" "gtc" 100 5) 9 book_partial)) 100 ≡ₚ
    stamp (order "sell" "gtc" 100 5) 9 book_partial ::
    level (own_side (order "sell" "gtc" 100 5) book_partial) 100 ∧
  StronglySorted by_time
    (level (own_side (order "sell" "gtc" 100 5)
              (AddOrder (order "sell" "gtc" 100 5) 9 book_partial)) 100) ∧
  (∀ q, q ≠ 100 →
        own_side (order "sell" "gtc" 100 5)
          (AddOrder (order "sell" "gtc" 100 5) 9 book_partial) !! q =
        own_side (order "sell" "gtc" 100 5) book_partial !! q) ∧
  other_side (order "sell" "gtc" 100 5)
    (AddOrder (order "sell" "gtc" 100 5) 9 book_partial) =
  other_side (order "sell" "gtc" 100 5) book_partial.
Proof.
  apply (AddOrder_files_the_order (order "sell" "gtc" 100 5) 9 book_partial).
  by right.
Defined.



(** ** Invariants that know which levels a pass is visiting *)

Section staged_invariant.
Context (Top : Frame → Prop) (AtBid : Z → Frame → Prop)
        (AtPair : Z → Z → Frame → Prop).
Hypothesis enter_bid : ∀ F bp bids,
  Top F → fBids F !! bp = Some bids →
  AtBid bp (set_bids F (fBids F) bids (length bids)).
Hypothesis leave_bid : ∀ F bp, AtBid bp F → Top F.
Hypothesis after_print : ∀ F, Top F → Top (print F NoMatch).
Hypothesis enter_pair : ∀ F bp ap asks,
  AtBid bp F → fAsks F !! ap = Some asks → ap <= bp →
  AtPair bp ap (set_i (set_asks F (fAsks F) asks (length asks)) 0).
Hypothesis leave_pair : ∀ F bp ap, AtPair bp ap F → AtBid bp F.
Hypothesis pair_set_i : ∀ F bp ap i, AtPair bp ap F → AtPair bp ap (set_i F i).
Hypothesis pair_set_j : ∀ F bp ap j, AtPair bp ap F → AtPair bp ap (set_j F j).
Hypothesis pair_set_bid : ∀ F bp ap b,
  AtPair bp ap F → index (bidsArr F) (bidsLen F) (vi F) = Some b →
  AtPair bp ap (set_bid F b).
Hypothesis pair_jbody : ∀ bp ap F c F',
  AtPair bp ap F → jbody bp ap F = Ok (c, F') → AtPair bp ap F'.

Lemma jloop_staged fuel bp ap F F' :
  AtPair bp ap F → jloop fuel bp ap F = Ok F' → AtPair bp ap F'.
Proof.
  revert F. induction fuel as [|fuel IH]; intros F HF; [done|].
  simpl. case_match; [|by intros [= <-]].
  destruct (jbody bp ap F) as [[[] F1]| |] eqn:Hb; simpl; try done.
  - intros Hl. eapply IH; [|done]. eauto.
  - intros [= <-]. eauto.
Qed.

Lemma iloop_staged fuel bp ap F F' :
  AtPair bp ap F → iloop fuel bp ap F = Ok F' → AtPair bp ap F'.
Proof.
  revert F. induction fuel as [|fuel IH]; intros F HF; [done|].
  cbn [iloop]. case_match; [|by intros [= <-]].
  destruct (index _ _ _) as [bid|] eqn:Hi; [|done].
  destruct (jloop _ _ _ _) as [F1| |] eqn:Hj; simpl; try done.
  intros Hl. eapply IH; [|done].
  apply pair_set_i. eapply jloop_staged; [|done].
  apply pair_set_j. by apply pair_set_bid.
Qed.

Lemma visit_ask_staged bp ap F F' :
  AtBid bp F → visit_ask bp ap F = Ok F' → AtBid bp F'.
Proof.
  intros HF. unfold visit_ask.
  destruct (fAsks F !! ap) as [asks|] eqn:Ha; [|by intros [= <-]].
  case_match eqn:Hc; [|by intros [= <-]].
  apply Z.leb_le in Hc. intros Hl.
  eapply leave_pair, iloop_staged; [|done]. eauto.
Qed.

Lemma range_asks_staged bp askOrder F F' :
  AtBid bp F → range_asks bp askOrder F = Ok F' → AtBid bp F'.
Proof.
  revert F. induction askOrder as [|ap rest IH]; intros F HF; simpl.
  - by intros [= <-].
  - destruct (visit_ask bp ap F) as [F1| |] eqn:Hv; simpl; try done.
    apply IH. by eapply visit_ask_staged.
Qed.

Lemma visit_bid_staged bp askOrder F F' :
  Top F → visit_bid bp askOrder F = Ok F' → Top F'.
Proof.
  intros HF. unfold visit_bid.
  destruct (fBids F !! bp) as [bids|] eqn:Hb; [|by intros [= <-]].
  destruct (range_asks _ _ _) as [F1| |] eqn:Hr; simpl; try done.
  intros [= <-].
  assert (Top F1).
  { eapply leave_bid, range_asks_staged; [|done]. eauto. }
  destruct (matches F1); eauto.
Qed.

Lemma range_bids_staged sched F F' :
  Top F → range_bids sched F = Ok F' → Top F'.
Proof.
  revert F. induction sched as [|[bp askOrder] rest IH]; intros F HF; simpl.
  - by intros [= <-].
  - destruct (visit_bid bp askOrder F) as [F1| |] eqn:Hv; simpl; try done.
    apply IH. by eapply visit_bid_staged.
Qed.
End staged_invariant.

(** ** A pass only deletes orders *)

Lemma take_shift_del arr k n :
  (k < n)%nat → (n ≤ length arr)%nat →
  take (n - 1) (shift_del arr k n) = delete k (take n arr).
Proof.
  intros Hk Hn. unfold shift_del. rewrite app_assoc.
  rewrite take_app_length'.
  - rewrite (delete_take_drop (take n arr)), take_take.
    f_equal. f_equal. lia.
  - rewrite length_app, length_drop, !length_take. lia.
Qed.

Lemma sub_levels_store_level m m0 p s l0 :
  sub_levels m m0 → m0 !! p = Some l0 → s `sublist_of` l0 →
  sub_levels (store_level m p s) m0.
Proof.
  intros Hm Hp Hs q l. unfold store_level.
  destruct (decide (q = p)) as [->|Hne].
  - case_match; [by rewrite lookup_delete_eq|].
    rewrite lookup_insert_eq. intros [= <-]. eauto.
  - case_match.
    + rewrite lookup_delete_ne, lookup_insert_ne by done. apply Hm.
    + rewrite lookup_insert_ne by done. apply Hm.
Qed.

Lemma level_is_Some m p : level m p ≠ [] → m !! p = Some (level m p).
Proof. unfold level. by destruct (m !! p). Qed.

Section only_deletes.
Context (B0 A0 : gmap Z (list Order)).

Lemma cleanup_ask_sub bp ap F F' :
  sub_pair B0 A0 bp ap F → cleanup_ask ap F = Ok F' →
  sub_pair B0 A0 bp ap F'.
Proof.
  intros [[[HB HA] Hbid] Halias]. unfold cleanup_ask, slice_del_ok.
  case_match eqn:Hok; [|done]. intros [= <-].
  apply andb_prop in Hok as [Hj0%Z.leb_le Hj1%Z.leb_le].
  set (s := level (fAsks F) ap) in *.
  assert (length s ≤ length (asksArr F))%nat as Hlen.
  { rewrite Halias at 1. rewrite length_take. lia. }
  assert (take (length s - 1) (shift_del (asksArr F) (Z.to_nat (vj F))
                                 (length s)) = delete (Z.to_nat (vj F)) s)
    as Hdel.
  { rewrite take_shift_del by lia. by rewrite <- Halias. }
  assert (fAsks F !! ap = Some s) as Hs.
  { apply level_is_Some. fold s. destruct s; simpl in *; [lia|done]. }
  destruct (HA _ _ Hs) as (a0 & Ha0 & Hsub).
  split; [split; [split|]|]; simpl; try done.
  - eapply sub_levels_store_level; [done|done|].
    rewrite Hdel. etrans; [apply sublist_delete|done].
  - rewrite !level_store_level, length_take, length_shift_del by lia.
    f_equal. lia.
Qed.

Lemma cleanup_bid_sub bp ap F F' :
  sub_pair B0 A0 bp ap F → cleanup_bid bp F = Ok F' →
  sub_pair B0 A0 bp ap F'.
Proof.
  intros [[[HB HA] (Hlen & l0 & Hl0 & Hsub)] Halias].
  unfold cleanup_bid, slice_del_ok.
  case_match eqn:Hok; [|done]. intros [= <-].
  apply andb_prop in Hok as [Hi0%Z.leb_le Hi1%Z.leb_le].
  assert (take (bidsLen F - 1)
            (shift_del (bidsArr F) (Z.to_nat (vi F)) (bidsLen F))
          `sublist_of` l0) as Hnew.
  { rewrite take_shift_del by lia. etrans; [apply sublist_delete|done]. }
  split; [split; [split|]|]; simpl; try done.
  - by eapply sub_levels_store_level.
  - split; [rewrite length_shift_del; lia|]. eauto.
Qed.

Lemma jbody_sub bp ap F c F' :
  sub_pair B0 A0 bp ap F → jbody bp ap F = Ok (c, F') →
  sub_pair B0 A0 bp ap F'.
Proof.
  intros HF. rewrite jbody_live.
  destruct (index _ _ _) as [ask|]; [|done]. cbv zeta.
  destruct (eligible _ _ && _); [|by intros [= _ <-]].
  set (F1 := record_fill _ _).
  assert (sub_pair B0 A0 bp ap F1) as HF1 by exact HF.
  match goal with
  | |- bind ?r _ = _ → _ => destruct r as [F2| |] eqn:H2; simpl; try done
  end.
  assert (sub_pair B0 A0 bp ap F2) as HF2.
  { revert H2. case_match.
    - by apply cleanup_ask_sub.
    - by intros [= <-]. }
  clear H2.
  match goal with
  | |- (if ?c then _ else _) = _ → _ => destruct c
  end; [|by intros [= _ <-]].
  destruct (cleanup_bid _ _) as [F3| |] eqn:H3; simpl; try done.
  intros [= _ <-]. by eapply cleanup_bid_sub.
Qed.

Lemma range_bids_sub sched F F' :
  sub_top B0 A0 F → range_bids sched F = Ok F' → sub_top B0 A0 F'.
Proof.
  apply (range_bids_staged (sub_top B0 A0) (sub_bid B0 A0) (sub_pair B0 A0)).
  - intros G bp bids [HB HA] Hl. split; [done|]. simpl.
    split; [done|]. destruct (HB _ _ Hl) as (l0 & ? & ?).
    exists l0. by rewrite take_ge.
  - by intros G bp [? _].
  - done.
  - intros G bp ap asks HG Hl _. split; [exact HG|]. simpl.
    rewrite (level_Some _ _ _ Hl). by rewrite take_ge.
  - by intros G bp ap [? _].
  - done.
  - done.
  - done.
  - apply jbody_sub.
Qed.
End only_deletes.

Lemma sub_levels_refl m : sub_levels m m.
Proof. intros q l Hl. eauto. Qed.

Lemma MatchOrders_sub_levels sched ob ob' es :
  MatchOrders sched ob = Ok (ob', es) →
  sub_levels (Bids ob') (Bids ob) ∧ sub_levels (Asks ob') (Asks ob).
Proof.
  unfold MatchOrders. case_match.
  - intros [= <- _]. split; apply sub_levels_refl.
  - destruct (range_bids _ _) as [F| |] eqn:HF; simpl; try done.
    intros [= <- _]. simpl.
    eapply range_bids_sub in HF; [done|].
    split; apply sub_levels_refl.
Qed.

(** A pass that completes only deletes orders: it creates no price level,
    and every level it leaves is the level it found with some of its
    orders taken out -- no order is added, altered, moved to another
    level or overtaken by another one. *)
Theorem MatchOrders_only_deletes sched ob ob' es :
  MatchOrders sched ob = Ok (ob', es) →
  sub_levels (Bids ob') (Bids ob) ∧ sub_levels (Asks ob') (Asks ob).
Proof. apply MatchOrders_sub_levels. Qed.

Lemma MatchOrders_only_deletes_witness :
  sub_levels (Bids book_rematch_1) (Bids book_rematch) ∧
  sub_levels (Asks book_rematch_1) (Asks book_rematch).
Proof.
  apply (MatchOrders_only_deletes [(100, [100])] book_rematch book_rematch_1
           [Fill 100 100 10 1 3]).
  vm_compute. reflexivity.
Defined.

(** ** Books reached by sequences of calls *)

Lemma keep_GTC_sub m : sub_levels (keep_GTC m) m.
Proof.
  intros q l. rewrite keep_GTC_lookup.
  destruct (m !! q) as [l0|] eqn:Hl; simpl; [|done].
  intros [-> _]%kept_Some. exists l0. split; [done|]. apply sublist_filter.
Qed.

Lemma StronglySorted_sublist (R : relation Order) l l' :
  l' `sublist_of` l → StronglySorted R l → StronglySorted R l'.
Proof.
  induction 1 as [|x l1 l2 Hsub IH|x l1 l2 Hsub IH]; intros Hs.
  - constructor.
  - apply StronglySorted_cons in Hs as [Hx Hs].
    apply StronglySorted_cons. split; [|by apply IH].
    rewrite Forall_forall in *. intros y Hy. apply Hx.
    by eapply elem_of_sublist.
  - apply StronglySorted_cons in Hs as [_ Hs]. by apply IH.
Qed.

Lemma levels_of_sub ob ob' (Q : list Order → Prop) :
  (∀ l l', l' `sublist_of` l → Q l → Q l') →
  sub_levels (Bids ob') (Bids ob) → sub_levels (Asks ob') (Asks ob) →
  levels_of ob Q → levels_of ob' Q.
Proof.
  intros HQ HB HA Hob p l [Hl|Hl].
  - destruct (HB _ _ Hl) as (l0 & Hl0 & Hsub).
    eapply HQ; [done|]. apply (Hob p). by left.
  - destruct (HA _ _ Hl) as (l0 & Hl0 & Hsub).
    eapply HQ; [done|]. apply (Hob p). by right.
Qed.

Lemma StopMatching_sub ob ob' :
  StopMatching ob = Ok ob' →
  sub_levels (Bids ob') (Bids ob) ∧ sub_levels (Asks ob') (Asks ob) ∧
  nextOrderID ob' = nextOrderID ob.
Proof.
  unfold StopMatching. case_match; [done|]. intros [= <-]. simpl.
  split_and!; [apply keep_GTC_sub|apply keep_GTC_sub|done].
Qed.

Lemma AddOrder_levels (Q : list Order → Prop) order now ob :
  (∀ l, Q l → Q (sort_by_timestamp (l ++ [stamp order now ob]))) →
  Q [] → levels_of ob Q → levels_of (AddOrder order now ob) Q.
Proof.
  intros Hadd Hnil Hob.
  assert (∀ m p, (∀ q l, m !! q = Some l → Q l) → Q (level m p)) as Hlev.
  { intros m p Hm. unfold level. destruct (m !! p) eqn:Hl; simpl; eauto. }
  assert (∀ q l, Bids ob !! q = Some l → Q l) as HB
    by (intros q l Hl; apply (Hob q); by left).
  assert (∀ q l, Asks ob !! q = Some l → Q l) as HA
    by (intros q l Hl; apply (Hob q); by right).
  unfold AddOrder. cbv zeta. intros p l.
  repeat case_match; simpl; intros [Hl|Hl]; eauto.
  - apply lookup_insert_Some in Hl as [[_ <-]|[_ Hl]]; eauto.
  - apply lookup_insert_Some in Hl as [[_ <-]|[_ Hl]]; eauto.
Qed.

Lemma run_levels (Q : list Order → Prop) ops ob ob' ids :
  (∀ l l', l' `sublist_of` l → Q l → Q l') →
  (∀ l o, Q l → Q (sort_by_timestamp (l ++ [o]))) →
  Q [] → levels_of ob Q → run ops ob = Ok (ob', ids) → levels_of ob' Q.
Proof.
  intros Hsub Hadd Hnil. revert ob ids.
  induction ops as [|[o now|sched|] ops IH]; intros ob ids Hob.
  - by intros [= <- _].
  - simpl. destruct (run ops _) as [[ob1 ids1]| |] eqn:Hrun; simpl; try done.
    intros [= <- _]. eapply IH; [|done].
    apply AddOrder_levels; auto.
  - simpl. destruct (MatchOrders sched ob) as [[ob1 es]| |] eqn:Hm; simpl;
      try done.
    intros Hrun. eapply IH; [|done].
    apply MatchOrders_sub_levels in Hm as [? ?].
    by eapply levels_of_sub.
  - simpl. destruct (StopMatching ob) as [ob1| |] eqn:Hst; simpl; try done.
    intros Hrun. eapply IH; [|done].
    apply StopMatching_sub in Hst as (? & ? & _).
    by eapply levels_of_sub.
Qed.

Lemma levels_of_NewOrderBook Q : levels_of NewOrderBook Q.
Proof. intros p l [Hl|Hl]; simpl in Hl; by rewrite lookup_empty in Hl. Qed.

(** Time priority is an invariant of the book: after any sequence of
    submissions, passes and a shutdown, every price level lists its orders
    oldest first -- whatever the clock readings were, since [AddOrder]
    sorts the level and a pass never reorders one. *)
Theorem levels_stay_in_time_order ops ob ids :
  run ops NewOrderBook = Ok (ob, ids) →
  levels_of ob (StronglySorted by_time).
Proof.
  apply run_levels.
  - apply StronglySorted_sublist.
  - intros l o _. apply sort_by_timestamp_sorted.
  - constructor.
  - apply levels_of_NewOrderBook.
Qed.

Lemma levels_stay_in_time_order_witness :
  levels_of
    (mkBook ∅ {[101 := [the_order 3 3 "sell" 3 101 5 true false]]} 4 true)
    (StronglySorted by_time).
Proof.
  apply (levels_stay_in_time_order some_calls _ [0; 1; 2; 3]).
  vm_compute. reflexivity.
Defined.

(** ** No empty price level *)

Lemma no_empty_store_level m p s :
  no_empty_level m → no_empty_level (store_level m p s).
Proof.
  intros Hm q l. unfold store_level.
  case_match eqn:Hs.
  - destruct (decide (q = p)) as [->|Hne].
    + by rewrite lookup_delete_eq.
    + rewrite lookup_delete_ne, lookup_insert_ne by done. apply Hm.
  - destruct (decide (q = p)) as [->|Hne].
    + rewrite lookup_insert_eq. intros [= <-] ->. done.
    + rewrite lookup_insert_ne by done. apply Hm.
Qed.

Lemma jbody_no_empty bp ap F c F' :
  inv_no_empty F → jbody bp ap F = Ok (c, F') → inv_no_empty F'.
Proof.
  intros HF. rewrite jbody_live.
  destruct (index _ _ _) as [ask|]; [|done]. cbv zeta.
  destruct (eligible _ _ && _); [|by intros [= _ <-]].
  set (F1 := record_fill _ _).
  assert (inv_no_empty F1) as HF1 by exact HF.
  match goal with
  | |- bind ?r _ = _ → _ => destruct r as [F2| |] eqn:H2; simpl; try done
  end.
  assert (inv_no_empty F2) as HF2.
  { revert H2. case_match; [|by intros [= <-]].
    unfold cleanup_ask. case_match; [|done]. intros [= <-].
    destruct HF1 as [? ?]. split; simpl; [done|].
    by apply no_empty_store_level. }
  clear H2.
  match goal with
  | |- (if ?c then _ else _) = _ → _ => destruct c
  end; [|by intros [= _ <-]].
  unfold cleanup_bid. case_match; [|done]. simpl. intros [= _ <-].
  destruct HF2 as [? ?]. split; simpl; [|done].
  by apply no_empty_store_level.
Qed.

Lemma MatchOrders_no_empty sched ob ob' es :
  no_empty_level (Bids ob) → no_empty_level (Asks ob) →
  MatchOrders sched ob = Ok (ob', es) →
  no_empty_level (Bids ob') ∧ no_empty_level (Asks ob').
Proof.
  intros HB HA. unfold MatchOrders. case_match; [by intros [= <- _]|].
  destruct (range_bids _ _) as [F| |] eqn:HF; simpl; try done.
  intros [= <- _]. simpl.
  eapply (range_bids_inv inv_no_empty) in HF; try done.
  intros ? ? ? ? ? _. apply jbody_no_empty.
Qed.

Lemma sort_by_timestamp_nonempty l o : sort_by_timestamp (l ++ [o]) ≠ [].
Proof.
  intros Hnil. pose proof (sort_by_timestamp_perm (l ++ [o])) as Hp.
  rewrite Hnil in Hp. apply Permutation_nil_l in Hp.
  by destruct l.
Qed.

Lemma run_no_empty ops ob ob' ids :
  levels_of ob (λ l, l ≠ []) → run ops ob = Ok (ob', ids) →
  levels_of ob' (λ l, l ≠ []).
Proof.
  revert ob ids.
  induction ops as [|[o now|sched|] ops IH]; intros ob ids Hob.
  - by intros [= <- _].
  - simpl. destruct (run ops _) as [[ob1 ids1]| |] eqn:Hrun; simpl; try done.
    intros [= <- _]. eapply IH; [|done].
    intros p l. unfold AddOrder. cbv zeta.
    repeat case_match; simpl; intros [Hl|Hl];
      try (apply lookup_insert_Some in Hl as [[_ <-]|[_ Hl]];
           [apply sort_by_timestamp_nonempty|]);
      apply (Hob p); auto.
  - simpl. destruct (MatchOrders sched ob) as [[ob1 es]| |] eqn:Hm; simpl;
      try done.
    intros Hrun. eapply IH; [|done].
    apply MatchOrders_no_empty in Hm as [HB HA].
    + intros p l [Hl|Hl]; [by apply (HB p)|by apply (HA p)].
    + intros p l Hl. apply (Hob p). by left.
    + intros p l Hl. apply (Hob p). by right.
  - simpl. destruct (StopMatching ob) as [ob1| |] eqn:Hst; simpl; try done.
    intros Hrun. eapply IH; [|done].
    revert Hst. unfold StopMatching. case_match; [done|]. intros [= <-].
    intros p l [Hl|Hl]; simpl in Hl; by eapply keep_GTC_nonempty.
Qed.

(** A price level that is present in a map is never empty: [AddOrder]
    creates a level with the order in it, and both [MatchOrders] and
    [StopMatching] delete a level when they take its last order. *)
Theorem no_price_level_is_empty ops ob ids :
  run ops NewOrderBook = Ok (ob, ids) → levels_of ob (λ l, l ≠ []).
Proof. apply run_no_empty, levels_of_NewOrderBook. Qed.

Lemma no_price_level_is_empty_witness :
  levels_of
    (mkBook ∅ {[101 := [the_order 3 3 "sell" 3 101 5 true false]]} 4 true)
    (λ l, l ≠ []).
Proof.
  apply (no_price_level_is_empty some_calls _ [0; 1; 2; 3]).
  vm_compute. reflexivity.
Defined.

(** ** Order ids in the book *)

Lemma resting_impl (P Q : Order → Prop) ob :
  (∀ o, P o → Q o) → resting P ob → resting Q ob.
Proof.
  intros HPQ HP p l Hl. eapply Forall_impl; [by apply (HP p)|done].
Qed.

Lemma is_resting_sub ob ob' o :
  sub_levels (Bids ob') (Bids ob) → sub_levels (Asks ob') (Asks ob) →
  is_resting o ob' → is_resting o ob.
Proof.
  intros HB HA (p & l & [Hl|Hl] & Ho).
  - destruct (HB _ _ Hl) as (l0 & Hl0 & Hsub).
    exists p, l0. split; [by left|]. by eapply elem_of_sublist.
  - destruct (HA _ _ Hl) as (l0 & Hl0 & Hsub).
    exists p, l0. split; [by right|]. by eapply elem_of_sublist.
Qed.

Lemma Forall_sublist (P : Order → Prop) l l' :
  l' `sublist_of` l → Forall P l → Forall P l'.
Proof.
  intros Hsub. rewrite !Forall_forall. intros HP x Hx.
  apply HP. by eapply elem_of_sublist.
Qed.

Lemma ids_ok_sub ob ob' :
  sub_levels (Bids ob') (Bids ob) → sub_levels (Asks ob') (Asks ob) →
  nextOrderID ob' = nextOrderID ob → ids_ok ob → ids_ok ob'.
Proof.
  intros HB HA Hn (H0 & Hres & [HfB HfA] & Hnd & Hsame).
  unfold ids_ok. rewrite Hn. split_and!; try done.
  - intros p l [Hl|Hl].
    + destruct (HB _ _ Hl) as (l0 & Hl0 & Hsub).
      eapply Forall_sublist; [done|]. apply (Hres p). by left.
    + destruct (HA _ _ Hl) as (l0 & Hl0 & Hsub).
      eapply Forall_sublist; [done|]. apply (Hres p). by right.
  - split; intros p l Hl.
    + destruct (HB _ _ Hl) as (l0 & Hl0 & Hsub).
      eapply Forall_sublist; [done|]. by apply HfB.
    + destruct (HA _ _ Hl) as (l0 & Hl0 & Hsub).
      eapply Forall_sublist; [done|]. by apply HfA.
  - eapply levels_of_sub; [|done|done|done].
    intros l l' Hsub Hl.
    apply (sublist_NoDup (Id <$> l') (Id <$> l)); [done|].
    by apply fmap_sublist.
  - intros o1 o2 H1 H2. apply Hsame; by eapply is_resting_sub.
Qed.

Lemma is_resting_AddOrder order now ob x :
  is_resting x (AddOrder order now ob) →
  x = stamp order now ob ∨ is_resting x ob.
Proof.
  assert (∀ m p, x ∈ sort_by_timestamp (level m p ++ [stamp order now ob]) →
                 x = stamp order now ob ∨ x ∈ level m p) as Hin.
  { intros m p. rewrite sort_by_timestamp_perm, elem_of_app.
    rewrite list_elem_of_singleton. tauto. }
  assert (∀ m p, x ∈ level m p → ∃ l, m !! p = Some l ∧ x ∈ l) as Hlev.
  { intros m p. unfold level. destruct (m !! p) as [l|]; simpl; [eauto|].
    by intros ?%elem_of_nil. }
  intros (p & l & Hl & Hx). revert Hl. unfold AddOrder. cbv zeta.
  repeat case_match; simpl; intros [Hl|Hl];
    try (right; exists p, l; by auto).
  - apply lookup_insert_Some in Hl as [[<- <-]|[_ Hl]].
    + apply Hin in Hx as [?|Hx]; [by left|]. right.
      apply Hlev in Hx as (l' & ? & ?). exists (Price (stamp order now ob)), l'.
      auto.
    + right. exists p, l. auto.
  - apply lookup_insert_Some in Hl as [[<- <-]|[_ Hl]].
    + apply Hin in Hx as [?|Hx]; [by left|]. right.
      apply Hlev in Hx as (l' & ? & ?). exists (Price (stamp order now ob)), l'.
      auto.
    + right. exists p, l. auto.
Qed.

Lemma is_resting_Id ob o :
  resting (λ o, 0 <= Id o < nextOrderID ob) ob → is_resting o ob →
  0 <= Id o < nextOrderID ob.
Proof.
  intros Hres (p & l & Hl & Ho).
  specialize (Hres p l Hl). rewrite Forall_forall in Hres. by apply Hres.
Qed.

Lemma new_level_NoDup l o n :
  NoDup (Id <$> l) → Forall (λ x, 0 <= Id x < n) l → Id o = n →
  NoDup (Id <$> sort_by_timestamp (l ++ [o])).
Proof.
  intros Hnd Hlt Ho. rewrite sort_by_timestamp_perm, fmap_app. simpl.
  apply NoDup_app. split_and!; [done| |apply NoDup_singleton].
  intros x Hx ->%list_elem_of_singleton.
  apply list_elem_of_fmap in Hx as (y & Hy & Hin).
  rewrite Forall_forall in Hlt. specialize (Hlt y Hin). lia.
Qed.

Lemma ids_ok_AddOrder order now ob :
  nextOrderID ob + 1 < 2 ^ 63 → ids_ok ob → ids_ok (AddOrder order now ob).
Proof.
  intros Hn (H0 & Hres & [HfB HfA] & Hnd & Hsame).
  assert (nextOrderID (AddOrder order now ob) = nextOrderID ob + 1) as Hnext.
  { rewrite AddOrder_nextOrderID. apply wrap64_id. unfold int64. lia. }
  pose proof (stamp_Id order now ob) as HId.
  pose proof (stamp_Side order now ob) as HSide.
  assert (∀ p, NoDup (Id <$> level (Bids ob) p) ∧
               Forall (λ x, 0 <= Id x < nextOrderID ob) (level (Bids ob) p) ∧
               Forall (λ o, Side o = "buy" ∧ Price o = p) (level (Bids ob) p))
    as HlevB.
  { intros p. unfold level. destruct (Bids ob !! p) as [l|] eqn:Hl; simpl.
    - split_and!; [apply (Hnd p)|apply (Hres p)|by apply HfB]; by left.
    - split_and!; constructor. }
  assert (∀ p, NoDup (Id <$> level (Asks ob) p) ∧
               Forall (λ x, 0 <= Id x < nextOrderID ob) (level (Asks ob) p) ∧
               Forall (λ o, Side o = "sell" ∧ Price o = p) (level (Asks ob) p))
    as HlevA.
  { intros p. unfold level. destruct (Asks ob !! p) as [l|] eqn:Hl; simpl.
    - split_and!; [apply (Hnd p)|apply (Hres p)|by apply HfA]; by right.
    - split_and!; constructor. }
  unfold ids_ok. rewrite Hnext. split_and!.
  - lia.
  - rewrite <- Hnext. apply AddOrder_resting.
    + rewrite Hnext, HId. lia.
    + rewrite Hnext. eapply resting_impl; [|done]. simpl. intros; lia.
  - unfold filed_right, AddOrder. cbv zeta.
    repeat case_match; simpl; (split; [|]); intros p l Hl; eauto.
    + apply lookup_insert_Some in Hl as [[<- <-]|[_ Hl]]; [|by eauto].
      rewrite sort_by_timestamp_perm. apply Forall_app. split.
      * apply HlevB.
      * apply Forall_singleton. split; [|done]. by apply String.eqb_eq.
    + apply lookup_insert_Some in Hl as [[<- <-]|[_ Hl]]; [|by eauto].
      rewrite sort_by_timestamp_perm. apply Forall_app. split.
      * apply HlevA.
      * apply Forall_singleton. split; [|done]. by apply String.eqb_eq.
  - intros p l. unfold AddOrder. cbv zeta.
    repeat case_match; simpl; intros [Hl|Hl];
      try (apply lookup_insert_Some in Hl as [[_ <-]|[_ Hl]];
           [eapply new_level_NoDup; [apply HlevB || apply HlevA
                                    |apply HlevB || apply HlevA|done]|]);
      apply (Hnd p); auto.
  - intros o1 o2 [->|H1]%is_resting_AddOrder [->|H2]%is_resting_AddOrder.
    + done.
    + apply (is_resting_Id _ _ Hres) in H2. rewrite HId. lia.
    + apply (is_resting_Id _ _ Hres) in H1. rewrite HId. lia.
    + by apply Hsame.
Qed.

Lemma ids_ok_NewOrderBook : ids_ok NewOrderBook.
Proof.
  split_and!.
  - done.
  - apply resting_NewOrderBook.
  - split; intros p l Hl; simpl in Hl; by rewrite lookup_empty in Hl.
  - apply levels_of_NewOrderBook.
  - intros o1 o2 (p & l & [Hl|Hl] & _); simpl in Hl;
      by rewrite lookup_empty in Hl.
Qed.

Lemma run_ids_ok ops ob ob' ids :
  ids_ok ob → nextOrderID ob + Z.of_nat (length ids) < 2 ^ 63 →
  run ops ob = Ok (ob', ids) →
  ids_ok ob' ∧ nextOrderID ob' = nextOrderID ob + Z.of_nat (length ids).
Proof.
  revert ob ids.
  induction ops as [|[o now|sched|] ops IH]; intros ob ids Hob Hn.
  - intros [= <- <-]. simpl. split; [done|lia].
  - simpl. destruct (run ops _) as [[ob1 ids1]| |] eqn:Hrun; simpl; try done.
    intros [= <- <-]. simpl length in Hn.
    assert (nextOrderID (AddOrder o now ob) = nextOrderID ob + 1) as Hnext.
    { rewrite AddOrder_nextOrderID. apply wrap64_id.
      destruct Hob as [? _]. unfold int64. lia. }
    apply IH in Hrun as [? Hc].
    + split; [done|]. rewrite Hc, Hnext. simpl length. lia.
    + apply ids_ok_AddOrder; [lia|done].
    + rewrite Hnext. lia.
  - simpl. destruct (MatchOrders sched ob) as [[ob1 es]| |] eqn:Hm; simpl;
      try done.
    intros Hrun.
    pose proof (MatchOrders_counter _ _ _ _ Hm) as [Hc _].
    pose proof (MatchOrders_sub_levels _ _ _ _ Hm) as [HB HA].
    apply IH in Hrun as [? Hc'].
    + split; [done|]. by rewrite Hc', Hc.
    + by eapply ids_ok_sub.
    + by rewrite Hc.
  - simpl. destruct (StopMatching ob) as [ob1| |] eqn:Hst; simpl; try done.
    intros Hrun. apply StopMatching_sub in Hst as (HB & HA & Hc).
    apply IH in Hrun as [? Hc'].
    + split; [done|]. by rewrite Hc', Hc.
    + by eapply ids_ok_sub.
    + by rewrite Hc.
Qed.

(** The id of a resting order identifies it: (as long as the counter has
    not wrapped) no two places of the book -- side, price level, index --
    hold orders with the same id, every resting id is below the counter,
    and every order rests on the side and at the price it names. *)
Theorem resting_ids_are_unique ops ob ids :
  run ops NewOrderBook = Ok (ob, ids) →
  Z.of_nat (length ids) < 2 ^ 63 →
  nextOrderID ob = Z.of_nat (length ids) ∧
  resting (λ o, 0 <= Id o < nextOrderID ob) ob ∧
  filed_right ob ∧
  (∀ buy1 p1 i1 o1 buy2 p2 i2 o2,
     at_pos ob buy1 p1 i1 = Some o1 → at_pos ob buy2 p2 i2 = Some o2 →
     Id o1 = Id o2 → buy1 = buy2 ∧ p1 = p2 ∧ i1 = i2).
Proof.
  intros Hrun Hn.
  apply run_ids_ok in Hrun as [(H0 & Hres & [HfB HfA] & Hnd & Hsame) Hc];
    [|apply ids_ok_NewOrderBook|simpl; lia].
  simpl in Hc. split_and!; try done.
  assert (∀ buy p i o, at_pos ob buy p i = Some o →
            ∃ l, (if buy then Bids ob else Asks ob) !! p = Some l ∧
                 l !! i = Some o ∧ is_resting o ob ∧
                 Side o = (if buy then "buy" else "sell") ∧ Price o = p)
    as Hat.
  { intros buy p i o. unfold at_pos.
    destruct ((if buy then Bids ob else Asks ob) !! p) as [l|] eqn:Hl;
      simpl; [|done].
    intros Hi. exists l. split_and!; try done.
    - exists p, l. split; [destruct buy; auto|].
      by eapply list_elem_of_lookup_2.
    - destruct buy.
      + specialize (HfB p l Hl). rewrite Forall_lookup in HfB.
        by apply (HfB i o).
      + specialize (HfA p l Hl). rewrite Forall_lookup in HfA.
        by apply (HfA i o).
    - destruct buy.
      + specialize (HfB p l Hl). rewrite Forall_lookup in HfB.
        by apply (HfB i o).
      + specialize (HfA p l Hl). rewrite Forall_lookup in HfA.
        by apply (HfA i o). }
  intros buy1 p1 i1 o1 buy2 p2 i2 o2
    (l1 & Hl1 & Hi1 & Hr1 & Hs1 & Hp1)%Hat
    (l2 & Hl2 & Hi2 & Hr2 & Hs2 & Hp2)%Hat Hid.
  assert (o1 = o2) as <- by by apply Hsame.
  assert (buy1 = buy2) as <-.
  { rewrite Hs1 in Hs2. by destruct buy1, buy2. }
  assert (p1 = p2) as <- by congruence.
  split_and!; try done.
  assert (l1 = l2) as <- by congruence.
  eapply NoDup_lookup; [|done|done].
  eapply NoDup_fmap_1. apply (Hnd p1). destruct buy1; auto.
Qed.

Lemma resting_ids_are_unique_witness :
  nextOrderID book_after_calls = Z.of_nat (length [0; 1; 2; 3]) ∧
  resting (λ o, 0 <= Id o < nextOrderID book_after_calls) book_after_calls ∧
  filed_right book_after_calls ∧
  (∀ buy1 p1 i1 o1 buy2 p2 i2 o2,
     at_pos book_after_calls buy1 p1 i1 = Some o1 →
     at_pos book_after_calls buy2 p2 i2 = Some o2 →
     Id o1 = Id o2 → buy1 = buy2 ∧ p1 = p2 ∧ i1 = i2).
Proof.
  apply (resting_ids_are_unique some_calls book_after_calls [0; 1; 2; 3]).
  - vm_compute. reflexivity.
  - simpl. lia.
Defined.

(** ** What a pass prints *)

Lemma jbody_positive bp ap F c F' :
  inv_positive F → jbody bp ap F = Ok (c, F') → inv_positive F'.
Proof.
  intros HF Hb. unfold inv_positive in *.
  destruct (index (asksArr F) (asksLen F) (vi F)) as [ask|] eqn:Hi.
  - pose proof (jbody_spec _ _ _ _ _ _ Hi Hb) as Hs. cbv zeta in Hs.
    destruct (eligible _ _ && _) eqn:He.
    + rewrite Hs. apply Forall_app. split; [done|].
      apply Forall_singleton. simpl.
      apply andb_prop in He as [_ Hv]. by apply Z.ltb_lt.
    + by destruct Hs as [-> _].
  - unfold jbody in Hb. by rewrite Hi in Hb.
Qed.

(** Every fill a pass prints has a positive size: orders of size zero or
    below never trade. *)
Theorem fills_have_positive_size sched ob ob' es :
  MatchOrders sched ob = Ok (ob', es) → Forall positive_fill es.
Proof.
  unfold MatchOrders. case_match; [by intros [= _ <-]|].
  destruct (range_bids _ _) as [F| |] eqn:HF; simpl; try done.
  intros [= _ <-].
  eapply (range_bids_inv inv_positive) in HF; try done.
  - intros ? ? ? ? ? _. apply jbody_positive.
  - intros G HG. unfold inv_positive in *. simpl.
    apply Forall_app. split; [done|]. by apply Forall_singleton.
  - constructor.
Qed.

Lemma fills_have_positive_size_witness :
  Forall positive_fill [Fill 100 100 7 0 1; Fill 100 100 3 0 1].
Proof.
  apply (fills_have_positive_size [(100, [100])] book_fok_market
           (mkBook ∅ ∅ 2 false)).
  vm_compute. reflexivity.
Defined.

Lemma cleanup_ask_matches ap F F' :
  cleanup_ask ap F = Ok F' → matches F' = matches F.
Proof. unfold cleanup_ask. case_match; [|done]. by intros [= <-]. Qed.

Lemma cleanup_bid_matches bp F F' :
  cleanup_bid bp F = Ok F' → matches F' = matches F.
Proof. unfold cleanup_bid. case_match; [|done]. by intros [= <-]. Qed.

Lemma jbody_matches bp ap F c F' ask :
  index (asksArr F) (asksLen F) (vi F) = Some ask →
  jbody bp ap F = Ok (c, F') →
  eligible (vbid F) ask && (0 <? Z.min (Size (vbid F)) (Size ask)) = true →
  matches F' = true.
Proof.
  intros Hi. rewrite jbody_live, Hi. cbv zeta. intros Hb He.
  rewrite He in Hb. revert Hb.
  match goal with
  | |- bind ?r _ = _ → _ => destruct r as [F2| |] eqn:H2; simpl; try done
  end.
  assert (matches F2 = true) as Hm.
  { revert H2. case_match.
    - by intros ->%cleanup_ask_matches.
    - by intros [= <-]. }
  clear H2.
  match goal with
  | |- (if ?c then _ else _) = _ → _ => destruct c
  end; [|by intros [= _ <-]].
  destruct (cleanup_bid _ _) as [F3| |] eqn:H3; simpl; try done.
  intros [= _ <-]. apply cleanup_bid_matches in H3. congruence.
Qed.

Lemma jbody_quiet_first bp ap F c F' :
  inv_quiet_first F → jbody bp ap F = Ok (c, F') → inv_quiet_first F'.
Proof.
  intros (k & fs & Ho & Hfs & Hm) Hb.
  destruct (index (asksArr F) (asksLen F) (vi F)) as [ask|] eqn:Hi.
  - pose proof (jbody_spec _ _ _ _ _ _ Hi Hb) as Hs. cbv zeta in Hs.
    pose proof (jbody_matches _ _ _ _ _ _ Hi Hb) as Ht.
    destruct (eligible _ _ && _) eqn:He.
    + exists k, (fs ++ [Fill bp ap (Z.min (Size (vbid F)) (Size ask))
                         (Id (vbid F)) (Id ask)]).
      split_and!.
      * by rewrite Hs, Ho, app_assoc.
      * apply Forall_app. split; [done|]. by apply Forall_singleton.
      * rewrite Ht by done. done.
    + destruct Hs as [-> _]. by exists k, fs.
  - unfold jbody in Hb. by rewrite Hi in Hb.
Qed.

Lemma replicate_snoc (k : nat) (e : Event) :
  replicate k e ++ [e] = replicate (S k) e.
Proof. induction k as [|k IH]; [done|]. simpl. by rewrite IH. Qed.

Lemma visit_bid_quiet_first bp askOrder F F' :
  inv_quiet_first F → visit_bid bp askOrder F = Ok F' → inv_quiet_first F'.
Proof.
  intros HF. unfold visit_bid.
  destruct (fBids F !! bp) as [bids|] eqn:Hb; [|by intros [= <-]].
  destruct (range_asks _ _ _) as [F1| |] eqn:Hr; simpl; try done.
  intros [= <-].
  assert (inv_quiet_first F1) as (k & fs & Ho & Hfs & Hm).
  { eapply (range_asks_inv inv_quiet_first); [| | | | | |exact Hr].
    - by intros G i (k & fs & ? & ? & ?); exists k, fs.
    - by intros G j (k & fs & ? & ? & ?); exists k, fs.
    - by intros G b (k & fs & ? & ? & ?) _; exists k, fs.
    - intros ? ? ? ? ? _. apply jbody_quiet_first.
    - by intros G a asks (k & fs & ? & ? & ?) _; exists k, fs.
    - destruct HF as (k & fs & ? & ? & ?). by exists k, fs. }
  destruct (matches F1) eqn:Hmatch.
  - exists k, fs. by rewrite Hmatch.
  - exists (S k), []. rewrite Hm in Ho by done. rewrite app_nil_r in Ho.
    split_and!; [|done|done].
    simpl out. rewrite Ho, app_nil_r. apply replicate_snoc.
Qed.

Lemma range_bids_quiet_first sched F F' :
  inv_quiet_first F → range_bids sched F = Ok F' → inv_quiet_first F'.
Proof.
  revert F. induction sched as [|[bp askOrder] rest IH]; intros F HF; simpl.
  - by intros [= <-].
  - destruct (visit_bid bp askOrder F) as [F1| |] eqn:Hv; simpl; try done.
    apply IH. by eapply visit_bid_quiet_first.
Qed.



(** ** A pass over a book that is not crossed *)

Lemma range_asks_uncrossed bp askOrder F :
  (∀ ap la, fAsks F !! ap = Some la → bp < ap) →
  range_asks bp askOrder F = Ok F.
Proof.
  intros Hun. induction askOrder as [|ap rest IH]; [done|].
  simpl. unfold visit_ask.
  destruct (fAsks F !! ap) as [asks|] eqn:Ha; simpl; [|done].
  apply Hun in Ha. apply Z.leb_gt in Ha. by rewrite Ha.
Qed.

Lemma range_bids_uncrossed sched F :
  (∀ bp ap lb la,
     fBids F !! bp = Some lb → fAsks F !! ap = Some la → bp < ap) →
  matches F = false →
  ∃ F', range_bids sched F = Ok F' ∧ fBids F' = fBids F ∧
        fAsks F' = fAsks F ∧ fills (out F') = fills (out F).
Proof.
  revert F. induction sched as [|[bp askOrder] rest IH]; intros F Hun Hm.
  - by exists F.
  - simpl. unfold visit_bid.
    destruct (fBids F !! bp) as [bids|] eqn:Hb; simpl; [|by apply IH].
    rewrite range_asks_uncrossed by (intros ap la; by apply (Hun bp ap bids)).
    simpl. rewrite Hm.
    destruct (IH (print (set_bids F (fBids F) bids (length bids)) NoMatch))
      as (F' & Hr & HB & HA & Hf); [done|done|].
    exists F'. split_and!; try done.
    rewrite Hf. simpl. rewrite fills_app. simpl. apply app_nil_r.
Qed.

(** When every bid price is below every ask price, a pass completes
    whatever the visiting order, prints no fill and leaves the book as it
    is (tests 2 and 5 of [main.go]). *)
Theorem uncrossed_book_is_left_alone sched ob :
  (∀ bp ap lb la,
     Bids ob !! bp = Some lb → Asks ob !! ap = Some la → bp < ap) →
  ∃ es, MatchOrders sched ob = Ok (ob, es) ∧ fills es = [].
Proof.
  intros Hun. unfold MatchOrders. case_match; [by exists []|].
  destruct (range_bids_uncrossed sched (enter ob))
    as (F' & -> & HB & HA & Hf); [done|done|].
  simpl. unfold leave. rewrite HB, HA. simpl.
  exists (out F'). split; [by destruct ob|done].
Qed.

Lemma uncrossed_book_is_left_alone_witness :
  ∃ es, MatchOrders [(98, [103; 102])] book_mixed = Ok (book_mixed, es) ∧
        fills es = [].
Proof.
  apply (uncrossed_book_is_left_alone [(98, [103; 102])] book_mixed).
  intros bp ap lb la Hb Ha.
  assert (bp = 98) as ->.
  { destruct (decide (bp = 98)) as [|Hne]; [done|].
    unfold book_mixed in Hb. simpl in Hb.
    by rewrite !lookup_insert_ne, lookup_empty in Hb. }
  destruct (decide (ap = 102)) as [->|H102]; [lia|].
  destruct (decide (ap = 103)) as [->|H103]; [lia|].
  unfold book_mixed in Ha. simpl in Ha.
  by rewrite !lookup_insert_ne, lookup_empty in Ha.
Defined.

(** ** A pass without market orders *)

(** Orders of the kinds limit, GTC, FOK and unknown never trade with each
    other: when no resting order is a market order, a pass that completes
    prints no fill and leaves the book as it is, at whatever prices and
    sizes the orders rest. *)
Theorem no_trade_without_a_market_order sched ob ob' es :
  resting (λ o, OrderType o ≠ 1) ob →
  MatchOrders sched ob = Ok (ob', es) → ob' = ob ∧ fills es = [].
Proof. apply MatchOrders_no_market. Qed.

Lemma no_trade_without_a_market_order_witness :
  book_two_gtc = book_two_gtc ∧ fills [NoMatch] = [].
Proof.
  apply (no_trade_without_a_market_order [(100, [100])] book_two_gtc).
  - apply submit_all_resting; [|apply resting_NewOrderBook].
    intros o now ob0 Ho. unfold stamp.
    repeat (apply elem_of_cons in Ho as [->|Ho]; [simpl; discriminate|]).
    by apply elem_of_nil in Ho.
  - vm_compute. reflexivity.
Defined.

(** ** More bids than asks *)

Lemma set_j_same F : set_j F (vj F) = F.
Proof. by destruct F. Qed.

Lemma index_Some arr n i :
  0 <= i < Z.of_nat n → (n ≤ length arr)%nat →
  ∃ o, index arr n i = Some o ∧ arr !! Z.to_nat i = Some o.
Proof.
  intros Hi Hn. unfold index.
  destruct (lookup_lt_is_Some_2 arr (Z.to_nat i)) as [o Ho]; [lia|].
  exists o. split; [|done].
  assert ((0 <=? i) && (i <? Z.of_nat n) = true) as ->; [|done].
  apply andb_true_intro. split; [apply Z.leb_le|apply Z.ltb_lt]; lia.
Qed.

Lemma index_None arr n i : Z.of_nat n <= i → index arr n i = None.
Proof.
  intros Hi. unfold index.
  assert ((i <? Z.of_nat n) = false) as -> by (apply Z.ltb_ge; lia).
  by rewrite andb_false_r.
Qed.

Lemma jbody_idle bp ap F :
  OrderType (vbid F) ≠ 1 →
  Forall (λ o, OrderType o ≠ 1) (asksArr F) →
  0 <= vi F < Z.of_nat (asksLen F) →
  (asksLen F ≤ length (asksArr F))%nat →
  jbody bp ap F = Ok (Next, F).
Proof.
  intros Hb Ha Hi Hn. rewrite jbody_live.
  destruct (index_Some (asksArr F) (asksLen F) (vi F)) as (ask & -> & Hl);
    [done|done|].
  cbv zeta. unfold eligible.
  rewrite Forall_lookup in Ha. specialize (Ha _ _ Hl). simpl in Ha.
  apply Z.eqb_neq in Hb, Ha. by rewrite Hb, Ha.
Qed.

Lemma jloop_idle fuel bp ap F :
  OrderType (vbid F) ≠ 1 →
  Forall (λ o, OrderType o ≠ 1) (asksArr F) →
  0 <= vi F < Z.of_nat (asksLen F) →
  (asksLen F ≤ length (asksArr F))%nat →
  0 <= vj F →
  Z.max 0 (Z.of_nat (asksLen F) - vj F) < Z.of_nat fuel →
  jloop fuel bp ap F = Ok (set_j F (Z.max (vj F) (Z.of_nat (asksLen F)))).
Proof.
  revert F. induction fuel as [|fuel IH]; intros F Hb Ha Hi Hn Hj Hf.
  - lia.
  - simpl. case_match eqn:Hlt.
    + apply Z.ltb_lt in Hlt. rewrite jbody_idle by done. simpl.
      rewrite IH; simpl; try done; try lia.
      f_equal. destruct F; simpl in *. unfold set_j. simpl. f_equal. lia.
    + apply Z.ltb_ge in Hlt.
      replace (Z.max (vj F) (Z.of_nat (asksLen F))) with (vj F) by lia.
      by rewrite set_j_same.
Qed.

Lemma iloop_idle_panic fuel bp ap F :
  Forall (λ o, OrderType o ≠ 1) (bidsArr F) →
  Forall (λ o, OrderType o ≠ 1) (asksArr F) →
  (bidsLen F ≤ length (bidsArr F))%nat →
  (asksLen F ≤ length (asksArr F))%nat →
  (0 < asksLen F < bidsLen F)%nat →
  0 <= vi F <= Z.of_nat (asksLen F) →
  Z.of_nat (asksLen F) - vi F < Z.of_nat fuel →
  iloop fuel bp ap F = Panic.
Proof.
  revert F. induction fuel as [|fuel IH]; intros F Hb Ha Hnb Hna Hlen Hi Hf.
  - lia.
  - cbn [iloop].
    assert ((vi F <? Z.of_nat (bidsLen F)) = true) as ->
      by (apply Z.ltb_lt; lia).
    destruct (index_Some (bidsArr F) (bidsLen F) (vi F)) as (bid & -> & Hl);
      [lia|done|].
    rewrite Forall_lookup in Hb. pose proof (Hb _ _ Hl) as Hbid.
    simpl in Hbid.
    destruct (decide (vi F < Z.of_nat (asksLen F))) as [Hlt|Hge].
    + rewrite jloop_idle; simpl; try done; try lia.
      * apply IH; simpl; try done; try lia. by apply Forall_lookup.
      * unfold jfuel. simpl. lia.
    + unfold jfuel. simpl.
      assert ((0 <? Z.of_nat (asksLen F)) = true) as ->
        by (apply Z.ltb_lt; lia).
      unfold jbody. simpl. rewrite index_None by lia. done.
Qed.

Lemma range_asks_visits (Inv : Frame → Prop) bp ap askOrder F F' :
  (∀ a G G', Inv G → visit_ask bp a G = Ok G' → Inv G') →
  Inv F → range_asks bp askOrder F = Ok F' → ap ∈ askOrder →
  ∃ G G', Inv G ∧ visit_ask bp ap G = Ok G'.
Proof.
  intros Hstep. revert F.
  induction askOrder as [|a rest IH]; intros F HF Hr Hin.
  - by apply elem_of_nil in Hin.
  - simpl in Hr.
    destruct (visit_ask bp a F) as [F1| |] eqn:Hv; simpl in Hr; try done.
    apply elem_of_cons in Hin as [->|Hin]; [by eauto|].
    eapply IH; [|done|done]. by eapply Hstep.
Qed.

Lemma range_bids_visits (Inv : Frame → Prop) bp askOrder sched F F' :
  (∀ b aks G G', Inv G → visit_bid b aks G = Ok G' → Inv G') →
  Inv F → range_bids sched F = Ok F' → (bp, askOrder) ∈ sched →
  ∃ G G', Inv G ∧ visit_bid bp askOrder G = Ok G'.
Proof.
  intros Hstep. revert F.
  induction sched as [|[b aks] rest IH]; intros F HF Hr Hin.
  - by apply elem_of_nil in Hin.
  - simpl in Hr.
    destruct (visit_bid b aks F) as [F1| |] eqn:Hv; simpl in Hr; try done.
    apply elem_of_cons in Hin as [[= -> ->]|Hin]; [by eauto|].
    eapply IH; [|done|done]. by eapply Hstep.
Qed.

Lemma visit_bid_idle B0 A0 bp askOrder F F' :
  all_levels (λ o, OrderType o ≠ 1) B0 →
  all_levels (λ o, OrderType o ≠ 1) A0 →
  inv_idle B0 A0 F → visit_bid bp askOrder F = Ok F' → inv_idle B0 A0 F'.
Proof.
  intros HB HA HF Hv.
  apply (range_bids_idle B0 A0 [(bp, askOrder)] F F' HB HA HF).
  simpl. by rewrite Hv.
Qed.

Lemma visit_ask_idle_at B0 A0 l bp ap F F' :
  all_levels (λ o, OrderType o ≠ 1) A0 →
  inv_idle_at B0 A0 l F → visit_ask bp ap F = Ok F' →
  inv_idle_at B0 A0 l F'.
Proof.
  intros HA. apply visit_ask_inv.
  - by intros G i [(? & ? & ? & ? & ? & ?) [? ?]].
  - by intros G j [(? & ? & ? & ? & ? & ?) [? ?]].
  - intros G b [(? & ? & ? & Hba & ? & ?) [? ?]] Hi.
    split; [|done]. split_and!; try done. simpl.
    eapply (index_Forall (λ o, OrderType o ≠ 1)) in Hi; done.
  - intros b a G c G' _ [(? & ? & ? & ? & Haa & Hb) [? ?]] Hj.
    destruct (index (asksArr G) (asksLen G) (vi G)) as [ask|] eqn:Hi.
    + pose proof (jbody_spec _ _ _ _ _ _ Hi Hj) as Hs. cbv zeta in Hs.
      eapply (index_Forall (λ o, OrderType o ≠ 1)) in Hi; [|exact Haa].
      simpl in Hi. unfold eligible in Hs.
      apply Z.eqb_neq in Hi, Hb. rewrite Hi, Hb in Hs. simpl in Hs.
      destruct Hs as [-> _]. apply Z.eqb_neq in Hb. by split_and!.
    + unfold jbody in Hj. by rewrite Hi in Hj.
  - intros G a asks [(? & HGA & ? & ? & ? & ?) [? ?]] Hl.
    split; [|done]. split_and!; try done.
    simpl. subst. by apply (HA a).
Qed.

(** The pass reads [asks[i]] for the bid with index [i].  When no resting
    order is a market order (so that nothing is removed) and some bid
    level holds more orders than an ask level at the same or a lower
    price, the pass panics with an index out of range, in whatever order
    the levels are visited -- for instance two GTC buys and one GTC sell
    at the same price. *)
Theorem more_bids_than_asks_panics sched ob bp ap bids asks :
  resting (λ o, OrderType o ≠ 1) ob →
  Bids ob !! bp = Some bids → Asks ob !! ap = Some asks →
  ap <= bp → (0 < length asks < length bids)%nat →
  enumerates sched ob →
  MatchOrders sched ob = Panic.
Proof.
  intros Hnm Hb Ha Hc Hlen [Hkeys Hinner].
  pose proof Hnm as [HB HA]%resting_all_levels.
  destruct (MatchOrders sched ob) as [[ob' es]| |] eqn:Hm; [|done|].
  2: by apply MatchOrders_fuel in Hm.
  exfalso. revert Hm. unfold MatchOrders.
  case_match eqn:Hsize.
  { apply orb_prop in Hsize as [Hs%Nat.eqb_eq|Hs%Nat.eqb_eq];
      apply map_size_empty_iff in Hs; rewrite Hs in *;
      by rewrite lookup_empty in *. }
  destruct (range_bids sched (enter ob)) as [F'| |] eqn:Hr; simpl; try done.
  intros _.
  (* the schedule visits the pair of levels *)
  assert (∃ askOrder, (bp, askOrder) ∈ sched ∧ ap ∈ askOrder)
    as (askOrder & Hin & Hap).
  { assert (bp ∈ sched.*1) as Hbp.
    { rewrite Hkeys. apply list_elem_of_fmap. exists (bp, bids).
      split; [done|]. by apply elem_of_map_to_list. }
    apply list_elem_of_fmap in Hbp as ([b aks] & -> & Hin).
    exists aks. split; [done|].
    rewrite Forall_forall in Hinner. rewrite (Hinner _ Hin). simpl.
    apply list_elem_of_fmap. exists (ap, asks).
    split; [done|]. by apply elem_of_map_to_list. }
  eapply (range_bids_visits (inv_idle (Bids ob) (Asks ob))) in Hr
    as (G & G' & HG & Hv); [| |by split_and!|exact Hin].
  2: { intros b aks G1 G2. by apply visit_bid_idle. }
  revert Hv. unfold visit_bid.
  destruct HG as (HGB & HGA & Hf & Hba & Haa & Hvb).
  rewrite HGB, Hb.
  destruct (range_asks _ _ _) as [F1| |] eqn:Hra; simpl; try done.
  intros _.
  eapply (range_asks_visits (inv_idle_at (Bids ob) (Asks ob) bids)) in Hra
    as (H & H' & [HH [Harr Hbl]] & Hva); [| | |exact Hap].
  2: { intros a G1 G2. by apply visit_ask_idle_at. }
  2: { split; [|done]. split_and!; try done. simpl. by apply (HB bp). }
  revert Hva. unfold visit_ask.
  destruct HH as (HHB & HHA & _ & _ & _ & _).
  rewrite HHA, Ha.
  assert ((ap <=? bp) = true) as -> by by apply Z.leb_le.
  rewrite iloop_idle_panic; simpl; try done; try lia.
  - rewrite Harr. by apply (HB bp).
  - by apply (HA ap).
  - rewrite Harr, Hbl. lia.
Qed.

Lemma more_bids_than_asks_panics_witness :
  MatchOrders [(100, [100])]
    (submit_all [order "buy" "gtc" 100 10; order "buy" "gtc" 100 10;
                 order "sell" "gtc" 100 10] 0 NewOrderBook) = Panic.
Proof.
  apply (more_bids_than_asks_panics _ _ 100 100
           [the_order 0 0 "buy" 3 100 10 true false;
            the_order 1 1 "buy" 3 100 10 true false]
           [the_order 2 2 "sell" 3 100 10 true false]).
  - apply submit_all_resting; [|apply resting_NewOrderBook].
    intros o now ob0 Ho. unfold stamp.
    repeat (apply elem_of_cons in Ho as [->|Ho]; [simpl; discriminate|]).
    by apply elem_of_nil in Ho.
  - vm_compute. reflexivity.
  - vm_compute. reflexivity.
  - lia.
  - simpl. lia.
  - split; [vm_compute; reflexivity|]. by apply Forall_singleton.
Defined.


(** ** A pass ends *)

(** The loops over [i] and [j] decrement their counters in their bodies,
    and the second one reads the length of a slice that it shortens; they
    end all the same: a pass, on any book and in any visiting order,
    either completes or panics. *)
Theorem a_pass_completes_or_panics sched ob :
  (∃ ob' es, MatchOrders sched ob = Ok (ob', es)) ∨
  MatchOrders sched ob = Panic.
Proof.
  destruct (MatchOrders sched ob) as [[ob' es]| |] eqn:Hm; [by eauto|by right|].
  by apply MatchOrders_fuel in Hm.
Qed.


(** ** One bid against one ask *)

Lemma enumerates_single sched ob bp ap lb la :
  Bids ob = {[bp := lb]} → Asks ob = {[ap := la]} →
  enumerates sched ob → sched = [(bp, [ap])].
Proof.
  intros HB HA [Hk Hi]. rewrite HB, HA in *.
  rewrite map_to_list_singleton in *. simpl in *.
  destruct sched as [|[b aks] [|? ?]]; simpl in Hk.
  - by apply Permutation_nil_l in Hk.
  - apply Permutation_singleton_r in Hk as [= ->].
    rewrite Forall_singleton in Hi. simpl in Hi.
    by apply Permutation_singleton_r in Hi as ->.
  - apply Permutation_length in Hk. done.
Qed.

Lemma eligible_market b a :
  OrderType b = 1 ∨ OrderType a = 1 → eligible b a = true.
Proof.
  unfold eligible. intros [->| ->]; simpl; [done|]. apply orb_true_r.
Qed.

Lemma store_level_last (p : Z) (l : list Order) :
  store_level {[p := l]} p [] = ∅.
Proof.
  unfold store_level. simpl.
  by rewrite insert_singleton_eq, delete_singleton_eq.
Qed.

(** The first iteration of the [j] loop, for a bid smaller than the ask:
    one fill, the bid leaves the book, [break]. *)
Lemma jbody_lone_smaller bp ap b a :
  OrderType b = 1 ∨ OrderType a = 1 →
  0 < Size b < Size a → int64 (Size a) →
  jbody bp ap (mkFrame {[bp := [b]]} {[ap := [a]]} false [] [b] 1 [a] 1 0 0 b)
  = Ok (Break, mkFrame ∅ {[ap := [a]]} true
                 [Fill bp ap (Size b) (Id b) (Id a)]
                 [b] 0 [a] 1 (-1) 0 (set_Size b 0)).
Proof.
  intros Hm [Hb Hlt] Ha.
  rewrite jbody_live. simpl.
  rewrite eligible_market by exact Hm.
  rewrite (Z.min_l (Size b) (Size a)) by lia.
  assert ((0 <? Size b) = true) as -> by by apply Z.ltb_lt.
  simpl. rewrite Z.sub_diag. rewrite (wrap64_id 0) by (unfold int64; lia).
  rewrite (wrap64_id (Size a - Size b)) by (unfold int64 in *; lia).
  assert ((Size a - Size b =? 0) = false) as -> by (apply Z.eqb_neq; lia).
  simpl. unfold cleanup_bid. simpl. rewrite store_level_last.
  reflexivity.
Qed.

(** The same for a bid as large as the ask: both leave the book. *)
Lemma jbody_lone_equal bp ap b a :
  OrderType b = 1 ∨ OrderType a = 1 →
  0 < Size b → Size b = Size a →
  jbody bp ap (mkFrame {[bp := [b]]} {[ap := [a]]} false [] [b] 1 [a] 1 0 0 b)
  = Ok (Break, mkFrame ∅ ∅ true
                 [Fill bp ap (Size b) (Id b) (Id a)]
                 [b] 0 [a] 1 (-1) (-1) (set_Size b 0)).
Proof.
  intros Hm Hb Heq.
  rewrite jbody_live. simpl.
  rewrite eligible_market by exact Hm.
  rewrite <- Heq, Z.min_id.
  assert ((0 <? Size b) = true) as -> by by apply Z.ltb_lt.
  simpl. rewrite Z.sub_diag. rewrite (wrap64_id 0) by (unfold int64; lia).
  simpl. unfold cleanup_ask. simpl.
  rewrite (level_Some _ _ [a]) by apply lookup_singleton_eq. simpl.
  rewrite store_level_last. simpl.
  unfold cleanup_bid. simpl. rewrite store_level_last.
  reflexivity.
Qed.

(** The first iteration for a bid larger than the ask: one fill, the ask
    leaves the map, the local slice [asks] keeps its length, and the loop
    goes on with [j = 0]. *)
Lemma jbody_lone_larger bp ap b a :
  OrderType b = 1 ∨ OrderType a = 1 →
  0 < Size a < Size b → int64 (Size b) →
  jbody bp ap (mkFrame {[bp := [b]]} {[ap := [a]]} false [] [b] 1 [a] 1 0 0 b)
  = Ok (Next, mkFrame {[bp := [b]]} ∅ true
                [Fill bp ap (Size a) (Id b) (Id a)]
                [b] 1 [a] 1 0 (-1) (set_Size b (Size b - Size a))).
Proof.
  intros Hm [Ha Hlt] Hb.
  rewrite jbody_live. simpl.
  rewrite eligible_market by exact Hm.
  rewrite (Z.min_r (Size b) (Size a)) by lia.
  assert ((0 <? Size a) = true) as -> by by apply Z.ltb_lt.
  simpl. rewrite Z.sub_diag. rewrite (wrap64_id 0) by (unfold int64; lia).
  rewrite (wrap64_id (Size b - Size a)) by (unfold int64 in *; lia).
  assert ((Size b - Size a =? 0) = false) as -> by (apply Z.eqb_neq; lia).
  simpl. unfold cleanup_ask. simpl.
  rewrite (level_Some _ _ [a]) by apply lookup_singleton_eq. simpl.
  rewrite store_level_last.
  reflexivity.
Qed.

(** The second iteration reads the ask again from the local slice.  When
    what is left of the bid is smaller than the ask was, it is filled
    against it. *)
Lemma jbody_lone_again bp ap b a o :
  OrderType b = 1 ∨ OrderType a = 1 →
  Size a < Size b < 2 * Size a → int64 (Size b) →
  jbody bp ap (mkFrame {[bp := [b]]} ∅ true o [b] 1 [a] 1 0 0
                 (set_Size b (Size b - Size a)))
  = Ok (Break, mkFrame ∅ ∅ true
                 (o ++ [Fill bp ap (Size b - Size a) (Id b) (Id a)])
                 [b] 0 [a] 1 (-1) 0
                 (set_Size (set_Size b (Size b - Size a)) 0)).
Proof.
  intros Hm [Hlt Hlt2] Hb.
  rewrite jbody_live. simpl.
  rewrite eligible_market by (simpl; exact Hm).
  rewrite (Z.min_l (Size b - Size a) (Size a)) by lia.
  assert ((0 <? Size b - Size a) = true) as -> by (apply Z.ltb_lt; lia).
  simpl. rewrite Z.sub_diag. rewrite (wrap64_id 0) by (unfold int64; lia).
  rewrite (wrap64_id (Size a - (Size b - Size a)))
    by (unfold int64 in *; lia).
  assert ((Size a - (Size b - Size a) =? 0) = false) as ->
    by (apply Z.eqb_neq; lia).
  simpl. unfold cleanup_bid. simpl. rewrite store_level_last.
  reflexivity.
Qed.

(** When what is left of the bid is at least as large as the ask was, the
    ask is filled a second time and removed a second time, from a map
    entry that is no longer there: [ob.Asks[askPrice][:j]] is out of
    range. *)
Lemma jbody_lone_again_panics bp ap b a o :
  OrderType b = 1 ∨ OrderType a = 1 →
  0 < Size a → 2 * Size a <= Size b → int64 (Size b) →
  jbody bp ap (mkFrame {[bp := [b]]} ∅ true o [b] 1 [a] 1 0 0
                 (set_Size b (Size b - Size a)))
  = Panic.
Proof.
  intros Hm Ha Hlt Hb.
  rewrite jbody_live. simpl.
  rewrite eligible_market by (simpl; exact Hm).
  rewrite (Z.min_r (Size b - Size a) (Size a)) by lia.
  assert ((0 <? Size a) = true) as -> by by apply Z.ltb_lt.
  simpl. rewrite Z.sub_diag. rewrite (wrap64_id 0) by (unfold int64; lia).
  simpl. unfold cleanup_ask. simpl.
  rewrite (level_None _ ap) by apply lookup_empty.
  reflexivity.
Qed.

Lemma jloop_break n bp ap F F1 :
  vj F < Z.of_nat (asksLen F) → jbody bp ap F = Ok (Break, F1) →
  jloop (S n) bp ap F = Ok F1.
Proof.
  intros Hj HF. cbn [jloop].
  assert ((vj F <? Z.of_nat (asksLen F)) = true) as -> by by apply Z.ltb_lt.
  by rewrite HF.
Qed.

Lemma jloop_next n bp ap F F1 :
  vj F < Z.of_nat (asksLen F) → jbody bp ap F = Ok (Next, F1) →
  jloop (S n) bp ap F = jloop n bp ap (set_j F1 (vj F1 + 1)).
Proof.
  intros Hj HF. cbn [jloop].
  assert ((vj F <? Z.of_nat (asksLen F)) = true) as -> by by apply Z.ltb_lt.
  by rewrite HF.
Qed.

Lemma jloop_panics n bp ap F :
  vj F < Z.of_nat (asksLen F) → jbody bp ap F = Panic →
  jloop (S n) bp ap F = Panic.
Proof.
  intros Hj HF. cbn [jloop].
  assert ((vj F <? Z.of_nat (asksLen F)) = true) as -> by by apply Z.ltb_lt.
  by rewrite HF.
Qed.

(** The last bid of the local slice: when its [j] loop ends with no bid
    left behind index [i], the [i] loop ends too. *)
Lemma iloop_last fuel bp ap F bid F1 :
  vi F < Z.of_nat (bidsLen F) →
  index (bidsArr F) (bidsLen F) (vi F) = Some bid →
  jloop (jfuel ap (set_j (set_bid F bid) 0)) bp ap (set_j (set_bid F bid) 0)
    = Ok F1 →
  Z.of_nat (bidsLen F1) <= vi F1 + 1 →
  iloop (S (S fuel)) bp ap F = Ok (set_i F1 (vi F1 + 1)).
Proof.
  intros Hi Hb Hj Hend. cbn [iloop].
  assert ((vi F <? Z.of_nat (bidsLen F)) = true) as -> by by apply Z.ltb_lt.
  rewrite Hb. cbv zeta. rewrite Hj. cbn [bind].
  cbn [vi bidsLen set_i].
  by assert ((vi F1 + 1 <? Z.of_nat (bidsLen F1)) = false) as ->
    by by apply Z.ltb_ge.
Qed.

Lemma iloop_panics fuel bp ap F bid :
  vi F < Z.of_nat (bidsLen F) →
  index (bidsArr F) (bidsLen F) (vi F) = Some bid →
  jloop (jfuel ap (set_j (set_bid F bid) 0)) bp ap (set_j (set_bid F bid) 0)
    = Panic →
  iloop (S fuel) bp ap F = Panic.
Proof.
  intros Hi Hb Hj. cbn [iloop].
  assert ((vi F <? Z.of_nat (bidsLen F)) = true) as -> by by apply Z.ltb_lt.
  rewrite Hb. cbv zeta. by rewrite Hj.
Qed.

Lemma visit_ask_crossed bp ap F asks :
  fAsks F !! ap = Some asks → ap <= bp →
  visit_ask bp ap F =
    iloop (S (bidsLen F)) bp ap
      (set_i (set_asks F (fAsks F) asks (length asks)) 0).
Proof.
  intros HA Hc. unfold visit_ask. rewrite HA.
  by assert ((ap <=? bp) = true) as -> by by apply Z.leb_le.
Qed.

Lemma visit_bid_level bp aks F bids :
  fBids F !! bp = Some bids →
  visit_bid bp aks F =
    bind (range_asks bp aks (set_bids F (fBids F) bids (length bids)))
         (λ F1, Ok (if matches F1 then F1 else print F1 NoMatch)).
Proof. intros HB. unfold visit_bid. by rewrite HB. Qed.

(** A pass over a book with one bid level and one ask level that cross is
    one run of the [i] loop. *)
Lemma MatchOrders_lone_pair sched ob bp ap b a :
  Bids ob = {[bp := [b]]} → Asks ob = {[ap := [a]]} → ap <= bp →
  enumerates sched ob →
  MatchOrders sched ob =
    bind (iloop 2 bp ap
            (mkFrame {[bp := [b]]} {[ap := [a]]} false [] [b] 1 [a] 1 0 0
                     no_order))
         (λ F1, Ok (leave ob (if matches F1 then F1 else print F1 NoMatch))).
Proof.
  intros HB HA Hc Hen.
  rewrite (enumerates_single _ _ _ _ _ _ HB HA Hen).
  unfold MatchOrders. rewrite HB, HA, !map_size_singleton.
  cbn [Nat.eqb orb range_bids].
  rewrite (visit_bid_level _ _ _ [b])
    by (cbn [fBids enter]; rewrite HB; apply lookup_singleton_eq).
  cbn [range_asks].
  rewrite (visit_ask_crossed bp ap _ [a]);
    [|cbn [fAsks set_bids enter]; rewrite HA; apply lookup_singleton_eq
     |exact Hc].
  unfold set_i, set_asks, set_bids, enter.
  cbn [fBids fAsks matches out bidsArr bidsLen asksArr asksLen vi vj vbid
       length].
  rewrite HB, HA.
  by destruct (iloop _ _ _ _).
Qed.

(** One bid and one ask at crossing prices, one of them a market order,
    the bid no larger than the ask: the pass prints one fill, of the size
    of the bid and at the price of the ask level, and removes the bid.
    The ask is removed when the sizes are equal (test 1 of [main.go]);
    otherwise it stays in the book with the size it had. *)
Theorem a_lone_bid_is_filled sched ob bp ap b a :
  Bids ob = {[bp := [b]]} → Asks ob = {[ap := [a]]} → ap <= bp →
  OrderType b = 1 ∨ OrderType a = 1 →
  0 < Size b <= Size a → int64 (Size a) →
  enumerates sched ob →
  MatchOrders sched ob =
    Ok (mkBook ∅ (if Size b =? Size a then ∅ else Asks ob)
               (nextOrderID ob) (stopClosed ob),
        [Fill bp ap (Size b) (Id b) (Id a)]).
Proof.
  intros HB HA Hc Hm [Hb Hle] Ha Hen.
  rewrite (MatchOrders_lone_pair _ _ _ _ _ _ HB HA Hc Hen).
  destruct (Z.eqb_spec (Size b) (Size a)) as [Heq|Hne].
  - erewrite (iloop_last 0 bp ap _ b); cycle 1.
    + simpl. lia.
    + reflexivity.
    + eapply jloop_break; [simpl; lia|].
      by apply (jbody_lone_equal bp ap b a).
    + simpl. lia.
    + reflexivity.
  - erewrite (iloop_last 0 bp ap _ b); cycle 1.
    + simpl. lia.
    + reflexivity.
    + eapply jloop_break; [simpl; lia|].
      apply (jbody_lone_smaller bp ap b a); [done|lia|done].
    + simpl. lia.
    + rewrite HA. reflexivity.
Qed.

Lemma a_lone_bid_is_filled_witness :
  MatchOrders [(100, [100])] book_partial =
    Ok (mkBook ∅ (if Size (the_order 0 0 "buy" 1 100 10 false false) =?
                     Size (the_order 1 1 "sell" 1 100 20 false false)
                  then ∅ else Asks book_partial)
               (nextOrderID book_partial) (stopClosed book_partial),
        [Fill 100 100 (Size (the_order 0 0 "buy" 1 100 10 false false))
              (Id (the_order 0 0 "buy" 1 100 10 false false))
              (Id (the_order 1 1 "sell" 1 100 20 false false))]).
Proof.
  apply (a_lone_bid_is_filled [(100, [100])] book_partial 100 100
           (the_order 0 0 "buy" 1 100 10 false false)
           (the_order 1 1 "sell" 1 100 20 false false)).
  - vm_compute. reflexivity.
  - vm_compute. reflexivity.
  - lia.
  - left. reflexivity.
  - simpl. lia.
  - unfold int64. simpl. lia.
  - split; [vm_compute; reflexivity|]. by apply Forall_singleton.
Defined.

(** The same with a bid larger than the ask but smaller than twice the
    ask: after the fill that removes the ask, the [j] loop reads the ask
    again from the slot it has left in the local slice and fills the rest
    of the bid against it.  The pass prints two fills, the second one
    against an order that is no longer in the book, and leaves both sides
    empty. *)
Theorem a_larger_bid_is_filled_twice sched ob bp ap b a :
  Bids ob = {[bp := [b]]} → Asks ob = {[ap := [a]]} → ap <= bp →
  OrderType b = 1 ∨ OrderType a = 1 →
  0 < Size a → Size a < Size b < 2 * Size a → int64 (Size b) →
  enumerates sched ob →
  MatchOrders sched ob =
    Ok (mkBook ∅ ∅ (nextOrderID ob) (stopClosed ob),
        [Fill bp ap (Size a) (Id b) (Id a);
         Fill bp ap (Size b - Size a) (Id b) (Id a)]).
Proof.
  intros HB HA Hc Hm Ha [Hlt Hlt2] Hib Hen.
  rewrite (MatchOrders_lone_pair _ _ _ _ _ _ HB HA Hc Hen).
  erewrite (iloop_last 0 bp ap _ b); cycle 1.
  - simpl. lia.
  - reflexivity.
  - unfold jfuel. cbn [asksLen set_j set_bid Nat.add].
    erewrite jloop_next; cycle 1.
    + simpl. lia.
    + apply (jbody_lone_larger bp ap b a); [done|lia|done].
    + eapply jloop_break; [simpl; lia|].
      by apply (jbody_lone_again bp ap b a).
  - simpl. lia.
  - reflexivity.
Qed.

Lemma a_larger_bid_is_filled_twice_witness :
  MatchOrders [(100, [100])] book_fok_market =
    Ok (mkBook ∅ ∅ (nextOrderID book_fok_market)
               (stopClosed book_fok_market),
        [Fill 100 100 (Size (the_order 1 1 "sell" 1 100 7 false false))
              (Id (the_order 0 0 "buy" 4 100 10 false true))
              (Id (the_order 1 1 "sell" 1 100 7 false false));
         Fill 100 100
              (Size (the_order 0 0 "buy" 4 100 10 false true) -
               Size (the_order 1 1 "sell" 1 100 7 false false))
              (Id (the_order 0 0 "buy" 4 100 10 false true))
              (Id (the_order 1 1 "sell" 1 100 7 false false))]).
Proof.
  apply (a_larger_bid_is_filled_twice [(100, [100])] book_fok_market 100 100
           (the_order 0 0 "buy" 4 100 10 false true)
           (the_order 1 1 "sell" 1 100 7 false false)).
  - vm_compute. reflexivity.
  - vm_compute. reflexivity.
  - lia.
  - right. reflexivity.
  - simpl. lia.
  - simpl. lia.
  - unfold int64. simpl. lia.
  - split; [vm_compute; reflexivity|]. by apply Forall_singleton.
Defined.

(** The same with a bid at least twice as large as the ask: the second
    fill takes the whole of the ask again, the code removes it a second
    time from a level that is no longer in the map, and the pass panics
    (slice bounds out of range). *)
Theorem a_bid_twice_the_ask_panics sched ob bp ap b a :
  Bids ob = {[bp := [b]]} → Asks ob = {[ap := [a]]} → ap <= bp →
  OrderType b = 1 ∨ OrderType a = 1 →
  0 < Size a → 2 * Size a <= Size b → int64 (Size b) →
  enumerates sched ob →
  MatchOrders sched ob = Panic.
Proof.
  intros HB HA Hc Hm Ha Hlt Hib Hen.
  rewrite (MatchOrders_lone_pair _ _ _ _ _ _ HB HA Hc Hen).
  erewrite (iloop_panics 1 bp ap _ b); cycle 1.
  - simpl. lia.
  - reflexivity.
  - unfold jfuel. cbn [asksLen set_j set_bid Nat.add].
    erewrite jloop_next; cycle 1.
    + simpl. lia.
    + apply (jbody_lone_larger bp ap b a); [done|lia|done].
    + eapply jloop_panics; [simpl; lia|].
      by apply (jbody_lone_again_panics bp ap b a).
  - reflexivity.
Qed.

Lemma a_bid_twice_the_ask_panics_witness :
  MatchOrders [(100, [100])] book_double = Panic.
Proof.
  apply (a_bid_twice_the_ask_panics [(100, [100])] book_double 100 100
           (the_order 0 0 "buy" 1 100 20 false false)
           (the_order 1 1 "sell" 1 100 10 false false)).
  - vm_compute. reflexivity.
  - vm_compute. reflexivity.
  - lia.
  - left. reflexivity.
  - simpl. lia.
  - simpl. lia.
  - unfold int64. simpl. lia.
  - split; [vm_compute; reflexivity|]. by apply Forall_singleton.
Defined.

(** * The server *)

Lemma exchanges_joinExchange n c s name :
  exchanges (joinExchange n c s) !! name =
    match exchanges s !! name with
    | Some ob => Some ob
    | None => if String.eqb n name then Some NewOrderBook else None
    end.
Proof.
  unfold joinExchange. simpl.
  destruct (String.eqb_spec n name) as [->|Hn].
  - destruct (exchanges s !! name) eqn:E; [done|].
    by rewrite lookup_insert_eq.
  - destruct (exchanges s !! n); [by destruct (exchanges s !! name)|].
    rewrite lookup_insert_ne by done. by destruct (exchanges s !! name).
Qed.

Lemma exchanges_trade n o c now s name :
  exchanges (trade n o c now s) !! name =
    match exchanges s !! name with
    | Some ob => Some (if String.eqb n name then AddOrder o now ob else ob)
    | None => None
    end.
Proof.
  unfold trade.
  destruct (String.eqb_spec n name) as [->|Hn].
  - destruct (exchanges s !! name) eqn:E; simpl; [|by rewrite E].
    by rewrite lookup_insert_eq.
  - destruct (exchanges s !! n); simpl.
    + rewrite lookup_insert_ne by done. by destruct (exchanges s !! name).
    + by destruct (exchanges s !! name).
Qed.

Lemma exchanges_tick n sched s s1 name :
  tick n sched s = Ok s1 →
  match exchanges s !! name with
  | Some ob =>
      if String.eqb n name
      then ∃ ob1 es, MatchOrders sched ob = Ok (ob1, es) ∧
                     exchanges s1 !! name = Some ob1
      else exchanges s1 !! name = Some ob
  | None => exchanges s1 !! name = None
  end.
Proof.
  unfold tick.
  destruct (String.eqb_spec n name) as [->|Hn].
  - destruct (exchanges s !! name) as [ob|] eqn:E; [|by intros [= <-]].
    destruct (MatchOrders sched ob) as [[ob1 es]| |]; simpl; try done.
    intros [= <-]. exists ob1, es. simpl. by rewrite lookup_insert_eq.
  - destruct (exchanges s !! n) as [ob|] eqn:E.
    + destruct (MatchOrders sched ob) as [[ob1 es]| |]; simpl; try done.
      intros [= <-]. simpl. rewrite lookup_insert_ne by done.
      by destruct (exchanges s !! name).
    + intros [= <-]. by destruct (exchanges s !! name).
Qed.

Lemma serve_book cmds s s' name :
  serve cmds s = Ok s' →
  match exchanges s !! name with
  | Some ob =>
      ∃ ob' ids, exchanges s' !! name = Some ob' ∧
                 run (book_ops name true cmds) ob = Ok (ob', ids)
  | None =>
      (exchanges s' !! name = None ∧ name ∉ joined cmds) ∨
      ∃ ob' ids, exchanges s' !! name = Some ob' ∧
                 run (book_ops name false cmds) NewOrderBook = Ok (ob', ids)
  end.
Proof.
  revert s. induction cmds as [|[n c|n c|n o c now|n sched] cmds IH];
    intros s; simpl.
  - intros [= <-]. destruct (exchanges s !! name) as [ob|] eqn:E.
    + by exists ob, [].
    + left. split; [done|]. apply not_elem_of_nil.
  - intros Hs. specialize (IH _ Hs). rewrite exchanges_joinExchange in IH.
    destruct (exchanges s !! name) as [ob|]; [done|].
    destruct (String.eqb_spec n name) as [->|Hn]; [by right|].
    destruct IH as [[H1 H2]|H]; [left|by right].
    split; [done|]. by apply not_elem_of_cons.
  - intros Hs. apply (IH _ Hs).
  - intros Hs. specialize (IH _ Hs). rewrite exchanges_trade in IH.
    destruct (exchanges s !! name) as [ob|]; [|done].
    destruct (String.eqb n name); [|done].
    destruct IH as (ob' & ids & H1 & H2). simpl. rewrite H2. simpl.
    by eexists _, _.
  - destruct (tick n sched s) as [s1| |] eqn:Ht; simpl; try done.
    intros Hs. specialize (IH _ Hs).
    pose proof (exchanges_tick _ _ _ _ name Ht) as H1.
    destruct (exchanges s !! name) as [ob|].
    + destruct (String.eqb n name).
      * destruct H1 as (ob1 & es & Hm & H1). rewrite H1 in IH.
        simpl. rewrite Hm. done.
      * by rewrite H1 in IH.
    + by rewrite H1 in IH.
Qed.

(** Every book of the server is a book reached from a new one by the
    orders and the passes addressed to it since the [JOIN] that created
    it: the commands for other exchanges, [JOIN] and [LEAVE] do not touch
    it.  So whatever holds of the books reached by [run] holds of the
    books of the server. *)
Theorem server_books_are_runs cmds s name ob :
  serve cmds NewServer = Ok s → exchanges s !! name = Some ob →
  ∃ ids, run (book_ops name false cmds) NewOrderBook = Ok (ob, ids).
Proof.
  intros Hs Hob. pose proof (serve_book _ _ _ name Hs) as H.
  simpl in H. rewrite lookup_empty in H.
  destruct H as [[H _]|(ob' & ids & H1 & H2)]; [congruence|].
  exists ids. congruence.
Qed.

Lemma server_books_are_runs_witness :
  ∃ ids, run (book_ops "QQQ" false some_commands) NewOrderBook =
           Ok (book_QQQ, ids).
Proof.
  apply (server_books_are_runs some_commands after_some_commands).
  - vm_compute. reflexivity.
  - vm_compute. reflexivity.
Defined.

(** The server records which exchange a connection has joined and never
    reads the record: the books and what is written to the connections do
    not depend on it.  A [TRADE] is accepted from a connection that has
    not joined the exchange, or has left it. *)
Theorem membership_is_never_read cmds cl cl' ex w :
  outcome (serve cmds (mkServer cl ex w)) =
  outcome (serve cmds (mkServer cl' ex w)).
Proof.
  revert cl cl' ex w.
  induction cmds as [|[n c|n c|n o c now|n sched] cmds IH];
    intros cl cl' ex w; simpl.
  - done.
  - apply IH.
  - apply IH.
  - unfold trade. simpl. destruct (ex !! n); apply IH.
  - unfold tick. simpl. destruct (ex !! n) as [ob|]; simpl; [|apply IH].
    destruct (MatchOrders sched ob) as [[ob1 es]| |]; simpl;
      [apply IH|done|done].
Qed.

Lemma serve_exchanges cmds s s' :
  serve cmds s = Ok s' →
  (∀ name, is_Some (exchanges s' !! name) ↔
           is_Some (exchanges s !! name) ∨ name ∈ joined cmds) ∧
  ((∀ name ob, exchanges s !! name = Some ob → stopClosed ob = false) →
   ∀ name ob, exchanges s' !! name = Some ob → stopClosed ob = false).
Proof.
  revert s. induction cmds as [|[n c|n c|n o c now|n sched] cmds IH];
    intros s; simpl.
  - intros [= <-]. split; [|done]. intros name. rewrite elem_of_nil. tauto.
  - intros [IH1 IH2]%IH. split.
    + intros name. rewrite IH1, exchanges_joinExchange, elem_of_cons.
      unfold is_Some.
      destruct (exchanges s !! name) as [ob|],
               (String.eqb_spec n name) as [->|Hn];
        intuition (try congruence; eauto).
      all: by destruct H0.
    + intros Hc. apply IH2. intros name ob.
      rewrite exchanges_joinExchange.
      destruct (exchanges s !! name) as [ob0|] eqn:E.
      * intros [= <-]. by eapply Hc.
      * destruct (String.eqb n name); [|done]. by intros [= <-].
  - intros Hs. apply (IH _ Hs).
  - intros [IH1 IH2]%IH. split.
    + intros name. rewrite IH1, exchanges_trade.
      destruct (exchanges s !! name) as [ob|]; [|done].
      split; (intros [_|H]; [left; by eexists|by right]).
    + intros Hc. apply IH2. intros name ob.
      rewrite exchanges_trade.
      destruct (exchanges s !! name) as [ob0|] eqn:E; [|done].
      intros [= <-]. destruct (String.eqb n name); [|by eapply Hc].
      rewrite AddOrder_stopClosed. by eapply Hc.
  - destruct (tick n sched s) as [s1| |] eqn:Ht; simpl; try done.
    intros [IH1 IH2]%IH. split.
    + intros name. rewrite IH1.
      pose proof (exchanges_tick _ _ _ _ name Ht) as H1.
      destruct (exchanges s !! name) as [ob|]; [|by rewrite H1].
      destruct (String.eqb n name); [|by rewrite H1].
      destruct H1 as (ob1 & es & _ & ->).
      split; (intros [_|H]; [left; by eexists|by right]).
    + intros Hc. apply IH2. intros name ob Hob.
      pose proof (exchanges_tick _ _ _ _ name Ht) as H1.
      destruct (exchanges s !! name) as [ob0|] eqn:E; [|congruence].
      destruct (String.eqb n name).
      * destruct H1 as (ob1 & es & Hm & H1).
        apply MatchOrders_counter in Hm as [_ Hm].
        assert (ob = ob1) as -> by congruence. rewrite Hm. by eapply Hc.
      * assert (ob = ob0) as -> by congruence. by eapply Hc.
Qed.

(** An exchange exists exactly when a [JOIN] has named it: nothing
    removes an exchange, not even the [LEAVE] of its last client, and
    nothing stops the matching goroutine of its book. *)
Theorem exchanges_are_the_joined_names cmds s :
  serve cmds NewServer = Ok s →
  (∀ name, is_Some (exchanges s !! name) ↔ name ∈ joined cmds) ∧
  (∀ name ob, exchanges s !! name = Some ob → stopClosed ob = false).
Proof.
  intros [H1 H2]%serve_exchanges. split.
  - intros name. rewrite H1. simpl. rewrite lookup_empty.
    split; [intros [[? [=]]|H]; done|by right].
  - apply H2. intros name ob. simpl. by rewrite lookup_empty.
Qed.

Lemma exchanges_are_the_joined_names_witness :
  (∀ name, is_Some (exchanges after_some_commands !! name) ↔
           name ∈ joined some_commands) ∧
  (∀ name ob, exchanges after_some_commands !! name = Some ob →
              stopClosed ob = false).
Proof.
  apply (exchanges_are_the_joined_names some_commands after_some_commands).
  vm_compute. reflexivity.
Defined.

Lemma wrap64_succ z : wrap64 (wrap64 z + 1) = wrap64 (z + 1).
Proof.
  unfold wrap64. f_equal.
  replace ((z + 2 ^ 63) mod 2 ^ 64 - 2 ^ 63 + 1 + 2 ^ 63)
    with ((z + 2 ^ 63) mod 2 ^ 64 + 1) by lia.
  replace (z + 1 + 2 ^ 63) with ((z + 2 ^ 63) + 1) by lia.
  by rewrite Zplus_mod_idemp_l.
Qed.

Lemma confirmations_snoc name w x :
  confirmations name (w ++ [x]) =
    (confirmations name w + if added_to name x then 1 else 0)%nat.
Proof.
  unfold confirmations. rewrite filter_app, length_app. f_equal.
  destruct (added_to name x) eqn:E.
  - by rewrite filter_cons_True.
  - rewrite filter_cons_False; [done|]. by rewrite E.
Qed.

(** The counter of a book and the confirmations written for it. *)
Lemma serve_confirmations cmds s s' :
  serve cmds s = Ok s' →
  (∀ name,
     match exchanges s !! name with
     | Some ob =>
         nextOrderID ob = wrap64 (Z.of_nat (confirmations name (written s)))
     | None => confirmations name (written s) = 0%nat
     end) →
  ∀ name,
    match exchanges s' !! name with
    | Some ob =>
        nextOrderID ob = wrap64 (Z.of_nat (confirmations name (written s')))
    | None => confirmations name (written s') = 0%nat
    end.
Proof.
  revert s. induction cmds as [|[n c|n c|n o c now|n sched] cmds IH];
    intros s; simpl.
  - by intros [= <-].
  - intros Hs Hinv. apply (IH _ Hs). intros name.
    rewrite exchanges_joinExchange. specialize (Hinv name).
    unfold joinExchange at 1 2. cbn [written].
    rewrite confirmations_snoc. unfold added_to. simpl. rewrite Nat.add_0_r.
    destruct (exchanges s !! name); [done|].
    destruct (String.eqb n name); [|done]. by rewrite Hinv.
  - intros Hs Hinv. apply (IH _ Hs). intros name. specialize (Hinv name).
    unfold leaveExchange. cbn [written exchanges].
    rewrite confirmations_snoc. unfold added_to at 1. simpl.
    rewrite Nat.add_0_r.
    destruct (exchanges s !! n); [done|].
    rewrite confirmations_snoc. unfold added_to. simpl.
    by rewrite Nat.add_0_r.
  - intros Hs Hinv. apply (IH _ Hs). intros name.
    rewrite exchanges_trade. pose proof (Hinv name) as Hname.
    unfold trade.
    destruct (String.eqb_spec n name) as [->|Hn].
    + destruct (exchanges s !! name) as [ob|]; cbn [written].
      * rewrite confirmations_snoc. unfold added_to. simpl.
        rewrite String.eqb_refl, AddOrder_nextOrderID, Hname, wrap64_succ.
        f_equal. lia.
      * rewrite confirmations_snoc. unfold added_to. simpl.
        by rewrite Nat.add_0_r.
    + assert (String.eqb n name = false) as En by by apply String.eqb_neq.
      destruct (exchanges s !! n); cbn [written];
        rewrite confirmations_snoc; unfold added_to; simpl;
        rewrite ?En, Nat.add_0_r; by destruct (exchanges s !! name).
  - destruct (tick n sched s) as [s1| |] eqn:Ht; simpl; try done.
    intros Hs Hinv. apply (IH _ Hs). intros name. specialize (Hinv name).
    pose proof (exchanges_tick _ _ _ _ name Ht) as H1.
    assert (written s1 = written s) as ->.
    { unfold tick in Ht. destruct (exchanges s !! n) as [ob|].
      - destruct (MatchOrders sched ob); simpl in Ht; try done.
        by injection Ht as <-.
      - by injection Ht as <-. }
    destruct (exchanges s !! name) as [ob|]; [|by rewrite H1].
    destruct (String.eqb n name); [|by rewrite H1].
    destruct H1 as (ob1 & es & Hm & ->).
    apply MatchOrders_counter in Hm as [-> _]. done.
Qed.

(** Every order that is confirmed has used one id of its exchange, and
    nothing else uses an id: the counter of a book equals the number of
    confirmations ["Order added to ... exchange"] the server has written
    for it (up to the wrap-around of the 64-bit counter), whichever
    connections sent the orders and whatever has been matched since. *)
Theorem confirmations_count_the_ids cmds s name ob :
  serve cmds NewServer = Ok s → exchanges s !! name = Some ob →
  nextOrderID ob = wrap64 (Z.of_nat (confirmations name (written s))) ∧
  (Z.of_nat (confirmations name (written s)) < 2 ^ 63 →
   nextOrderID ob = Z.of_nat (confirmations name (written s))).
Proof.
  intros Hs Hob.
  assert (nextOrderID ob =
          wrap64 (Z.of_nat (confirmations name (written s)))) as H.
  { pose proof (serve_confirmations _ _ _ Hs) as H.
    specialize (H (λ name, eq_refl) name). by rewrite Hob in H. }
  split; [done|]. intros Hk. rewrite H. apply wrap64_id.
  unfold int64. lia.
Qed.

Lemma confirmations_count_the_ids_witness :
  nextOrderID book_QQQ =
    wrap64 (Z.of_nat (confirmations "QQQ" (written after_some_commands))) ∧
  (Z.of_nat (confirmations "QQQ" (written after_some_commands)) < 2 ^ 63 →
   nextOrderID book_QQQ =
     Z.of_nat (confirmations "QQQ" (written after_some_commands))).
Proof.
  apply (confirmations_count_the_ids some_commands after_some_commands).
  - vm_compute. reflexivity.
  - vm_compute. reflexivity.
Defined.

Lemma submitted_book_ops name present cmds o :
  o ∈ submitted (book_ops name present cmds) → o ∈ trade_orders cmds.
Proof.
  revert present.
  induction cmds as [|[n c|n c|n o' c now|n sched] cmds IH];
    intros present; simpl; try apply IH.
  - done.
  - unfold trade_orders. simpl. rewrite elem_of_cons.
    destruct (present && String.eqb n name).
    + unfold submitted. simpl. rewrite elem_of_cons.
      intros [->|H]; [by left|right]. by eapply IH.
    + intros H. right. by eapply IH.
  - destruct (present && String.eqb n name); [|apply IH].
    unfold submitted. simpl. apply IH.
Qed.

Lemma from_the_wire_GTC ParseFloat Atoi cmds o :
  Forall (from_the_wire ParseFloat Atoi) cmds → o ∈ trade_orders cmds →
  GTC o = false.
Proof.
  intros Hw Ho. unfold trade_orders in Ho.
  apply list_elem_of_omap in Ho as (c & Hc & Ho).
  eapply Forall_forall in Hw; [|done].
  destruct c as [| |n o' c now|]; try done. injection Ho as ->.
  destruct Hw as (parts & now' & Hp). unfold orderFromParts in Hp.
  repeat case_match; try done. by injection Hp as <-.
Qed.

(** An order that arrives over TCP never carries a flag set by its
    sender: [orderFromParts] leaves [GTC] unset and [AddOrder] derives it
    from the kind.  So in every book of the server the flag [GTC] of a
    resting order is set exactly when the order is of kind GTC, and a
    shutdown of the book would keep the orders of kind GTC and no
    others. *)
Theorem wire_orders_are_flagged_by_kind ParseFloat Atoi cmds s name ob :
  Forall (from_the_wire ParseFloat Atoi) cmds →
  serve cmds NewServer = Ok s → exchanges s !! name = Some ob →
  resting flags_ok ob ∧
  ∃ ob', StopMatching ob = Ok ob' ∧
    resting (λ o, OrderType o = 3) ob' ∧
    (∀ p, level (Bids ob') p =
          filter (λ o, OrderType o = 3) (level (Bids ob) p)) ∧
    (∀ p, level (Asks ob') p =
          filter (λ o, OrderType o = 3) (level (Asks ob) p)).
Proof.
  intros Hw Hs Hob.
  assert (resting flags_ok ob) as Hflags.
  { pose proof (serve_book _ _ _ name Hs) as H.
    simpl in H. rewrite lookup_empty, Hob in H.
    destruct H as [[[=] _]|(ob' & ids & [= <-] & Hrun)].
    eapply run_flags_ok; [|done].
    apply Forall_forall. intros o Ho%submitted_book_ops.
    by eapply from_the_wire_GTC. }
  split; [done|].
  apply serve_exchanges in Hs as [_ Hopen].
  destruct (StopMatching_keeps_the_GTC_orders ob) as (ob' & ? & ? & ? & ? & _);
    [|done|by exists ob'].
  eapply Hopen; [|done]. intros n b. simpl. by rewrite lookup_empty.
Qed.

Lemma wire_orders_are_flagged_by_kind_witness :
  resting flags_ok book_QQQ ∧
  ∃ ob', StopMatching book_QQQ = Ok ob' ∧
    resting (λ o, OrderType o = 3) ob' ∧
    (∀ p, level (Bids ob') p =
          filter (λ o, OrderType o = 3)
                 (level (Bids book_QQQ) p)) ∧
    (∀ p, level (Asks ob') p =
          filter (λ o, OrderType o = 3)
                 (level (Asks book_QQQ) p)).
Proof.
  apply (wire_orders_are_flagged_by_kind
           (λ price, if String.eqb price "101" then 101 else 100)
           (λ size, if String.eqb size "5" then 5 else 10) some_commands
           after_some_commands "QQQ").
  - unfold some_commands. repeat constructor.
    + by exists ["TRADE"; "QQQ"; "buy"; "market"; "100"; "10"; "QQQ"], 0.
    + by exists ["TRADE"; "QQQ"; "sell"; "market"; "100"; "10"; "QQQ"], 0.
    + by exists ["TRADE"; "SPY"; "sell"; "market"; "100"; "10"; "QQQ"], 0.
    + by exists ["TRADE"; "QQQ"; "sell"; "gtc"; "101"; "5"; "QQQ"], 0.
  - vm_compute. reflexivity.
  - vm_compute. reflexivity.
Defined.
